(** * SQL-Data-Analysis: synthetic store generator, analytical queries, renders

    A shallow embedding of [sql_data_analysis.py] and of the file effects of
    [generate_visualizations.py].

    - Python floats and SQLite REAL values are IEEE-754 binary64 numbers,
      modelled with the Standard Library's [spec_float] (precision 53,
      [emax] 1024) and its correctly rounded operations.
    - [np.random] is the process-wide random source. A run is modelled by the
      sequence of raw draws it delivers; [randint] maps a raw draw into the
      requested half-open range.
    - The SQLite store is a record of four optional tables (a table is absent
      before CREATE and after DROP); a table is the list of its rows in
      insertion order.
    - What SQL leaves to the engine (the order of rows that compare equal
      under ORDER BY, the evaluation of SUM and AVG over REAL values) is a
      type class [SqlEngine]; the queries are stated for every engine. *)

From Stdlib Require Import ZArith QArith Lqa Floats.SpecFloat Ascii String DecimalString.
From Stdlib Require Import OrderedTypeEx.
From stdpp Require Import base decidable option list sorting strings gmap.

Local Open Scope Z_scope.

(** ** IEEE-754 binary64 *)

Module B64.

Definition float : Type := spec_float.

Definition prec : Z := 53.
Definition emax : Z := 1024.

Definition add : float -> float -> float := SFadd prec emax.
Definition mul : float -> float -> float := SFmul prec emax.
Definition div : float -> float -> float := SFdiv prec emax.

(** The comparison [x < y] of two doubles. *)
Definition ltb : float -> float -> bool := SFltb.

(** The double nearest to an integer (Python's int-to-float coercion in
    mixed arithmetic such as [price * quantity]). *)
Definition of_Z (n : Z) : float := binary_normalize prec emax n 0 false.

Definition zero : float := S754_zero false.

(** The double nearest to the rational [a / b] (round to nearest, ties to
    even): the value of a decimal literal, and of Python's string-to-float
    conversion. *)
Definition nearest_ratio (a b : positive) : float :=
  let '(q, e, l) := SFdiv_core_binary prec emax (Zpos a) 0 (Zpos b) 0 in
  binary_round_aux prec emax false q e l.

(** The double denoted by a literal with two fractional digits, given as a
    number of hundredths: [decimal2 69999] is the literal [699.99]. *)
Definition decimal2 (hundredths : Z) : float :=
  match hundredths with
  | Z0 => S754_zero false
  | Zpos p => nearest_ratio p 100
  | Zneg p => SFopp (nearest_ratio p 100)
  end.

(** The exact rational value of a finite double. *)
Definition to_Q (x : float) : Q :=
  match x with
  | S754_finite s m e =>
      let sm := if s then Zneg m else Zpos m in
      match e with
      | Zneg p => Qmake sm (Pos.pow 2 p)
      | _ => Qmake (sm * 2 ^ e) 1
      end
  | _ => 0%Q
  end.

(** Integer quotient of [a / b] rounded to nearest, ties to even. *)
Definition round_half_even_div (a b : Z) : Z :=
  let '(q, r) := Z.div_eucl a b in
  match (2 * r ?= b) with
  | Lt => q
  | Gt => q + 1
  | Eq => if Z.even q then q else q + 1
  end.

(** The number of hundredths nearest to a rational (ties to even). *)
Definition round_cents (q : Q) : Z :=
  round_half_even_div (100 * Qnum q) (Zpos (Qden q)).

(** Python's [round(x, 2)] on a float: CPython prints the exact value of [x]
    correctly rounded to two decimals, then reads that decimal text back as
    the nearest double. Infinities and NaN are returned unchanged. *)
Definition py_round2 (x : float) : float :=
  match x with
  | S754_finite s _ _ =>
      match round_cents (to_Q x) with
      | Z0 => S754_zero s
      | n => decimal2 n
      end
  | _ => x
  end.

(** Numerical order of REAL values as SQLite sorts them: an order embedding
    of the doubles into the integers (the exact value scaled by [2^1074],
    the weight of the smallest subnormal, so that every finite double maps
    to an integer). NaN is stored as NULL and sorts before every number. *)
Definition real_key (x : float) : Z :=
  match x with
  | S754_nan => - 2 ^ 2200 - 1
  | S754_infinity true => - 2 ^ 2200
  | S754_infinity false => 2 ^ 2200
  | S754_zero _ => 0
  | S754_finite s m e =>
      let v := Z.shiftl (Zpos m) (e + 1074) in
      if s then - v else v
  end.

(** Strict positivity of a REAL value. *)
Definition is_positive (x : float) : bool :=
  match x with
  | S754_finite false _ _ | S754_infinity false => true
  | _ => false
  end.

Definition eqb (x y : float) : bool :=
  match x, y with
  | S754_zero s, S754_zero s' => Bool.eqb s s'
  | S754_infinity s, S754_infinity s' => Bool.eqb s s'
  | S754_nan, S754_nan => true
  | S754_finite s m e, S754_finite s' m' e' =>
      Bool.eqb s s' && Pos.eqb m m' && Z.eqb e e'
  | _, _ => false
  end.

End B64.

Abbreviation float := B64.float.

(** ** The process-wide random source *)

(** [raw] is the sequence of raw draws the source delivers during a run and
    [cursor] the number of draws consumed so far. The script never seeds the
    source, so [raw] differs from one run to the next. *)
Record RandomState := mkRandomState { raw : nat -> N; cursor : nat }.

(** Python exceptions the modelled code can raise. *)
Inductive exn :=
| ValueError | IndexError | OverflowError
| IntegrityError | OperationalError
| FileNotFoundError | NotADirectoryError | IsADirectoryError
| PermissionError | FileExistsError.

Inductive result (A : Type) :=
| Ok (a : A)
| Raise (e : exn).
Arguments Ok {A} a.
Arguments Raise {A} e.

Global Instance result_ret : MRet result := fun A (a : A) => Ok a.

Global Instance result_bind : MBind result := fun A B (k : A -> result B) (m : result A) =>
  match m with
  | Ok a => k a
  | Raise e => Raise e
  end.

(** Computations that draw random numbers and may raise an exception. *)
Definition Gen (A : Type) : Type := RandomState -> result (A * RandomState).

Global Instance gen_ret : MRet Gen := fun A (a : A) rs => Ok (a, rs).

Global Instance gen_bind : MBind Gen := fun A B (k : A -> Gen B) (m : Gen A) rs =>
  match m rs with
  | Ok (a, rs') => k a rs'
  | Raise e => Raise e
  end.

Definition raise {A} (e : exn) : Gen A := fun _ => Raise e.

Definition lift_option {A} (e : exn) (o : option A) : Gen A :=
  match o with Some a => mret a | None => raise e end.

(** [np.random.randint(low, high)]: an integer of the half-open range
    [low, high); raises ValueError when the range is empty. *)
Definition randint (low high : Z) : Gen Z :=
  fun rs =>
    if low <? high
    then Ok (low + Z.of_N (raw rs (cursor rs)) mod (high - low),
             mkRandomState (raw rs) (S (cursor rs)))
    else Raise ValueError.

(** A [for] loop over a list of indices threading the loop-carried
    variables [s]. *)
Fixpoint for_each {I S} (l : list I) (body : I -> S -> Gen S) (s : S) : Gen S :=
  match l with
  | [] => mret s
  | i :: l' => s' ← body i s; for_each l' body s'
  end.

(** Python's [range(start, stop)]. *)
Definition range (start stop : Z) : list Z := seqZ start (stop - start).

(** ** Calendar dates ([datetime.date]) *)

Module PyDate.

Record date := mkdate { year : Z; month : Z; day : Z }.

Definition is_leap (y : Z) : bool :=
  (y mod 4 =? 0) && (negb (y mod 100 =? 0) || (y mod 400 =? 0)).

Definition days_before_year (y : Z) : Z :=
  let y1 := y - 1 in y1 * 365 + y1 / 4 - y1 / 100 + y1 / 400.

Definition DAYS_IN_MONTH : list Z :=
  [-1; 31; 28; 31; 30; 31; 30; 31; 31; 30; 31; 30; 31].

Definition DAYS_BEFORE_MONTH : list Z :=
  [-1; 0; 31; 59; 90; 120; 151; 181; 212; 243; 273; 304; 334].

Definition days_before_month (y m : Z) : Z :=
  DAYS_BEFORE_MONTH !!! Z.to_nat m + (if (2 <? m) && is_leap y then 1 else 0).

Definition ymd2ord (d : date) : Z :=
  days_before_year (year d) + days_before_month (year d) (month d) + day d.

Definition DI400Y : Z := 146097.
Definition DI100Y : Z := 36524.
Definition DI4Y : Z := 1461.
Definition MAXORDINAL : Z := 3652059.

Definition ord2ymd (ordinal : Z) : date :=
  let n := ordinal - 1 in
  let n400 := n / DI400Y in let n := n mod DI400Y in
  let y := n400 * 400 + 1 in
  let n100 := n / DI100Y in let n := n mod DI100Y in
  let n4 := n / DI4Y in let n := n mod DI4Y in
  let n1 := n / 365 in let n := n mod 365 in
  let y := y + n100 * 100 + n4 * 4 + n1 in
  if (n1 =? 4) || (n100 =? 4) then mkdate (y - 1) 12 31
  else
    let leapyear := (n1 =? 3) && (negb (n4 =? 24) || (n100 =? 3)) in
    let m := Z.shiftr (n + 50) 5 in
    let preceding :=
      DAYS_BEFORE_MONTH !!! Z.to_nat m + (if (2 <? m) && leapyear then 1 else 0) in
    if n <? preceding
    then
      let m' := m - 1 in
      let preceding' :=
        preceding - (DAYS_IN_MONTH !!! Z.to_nat m'
                     + (if (m' =? 2) && leapyear then 1 else 0)) in
      mkdate y m' (n - preceding' + 1)
    else mkdate y m (n - preceding + 1).

(** [d + datetime.timedelta(days=k)]; OverflowError outside years 1..9999. *)
Definition add_days (d : date) (k : Z) : option date :=
  let o := ymd2ord d + k in
  if (0 <? o) && (o <=? MAXORDINAL) then Some (ord2ymd o) else None.

Definition decimal (n : Z) : string := NilZero.string_of_int (Z.to_int n).

(** [%0wd] for a non-negative number. *)
Definition zero_pad (width : nat) (n : Z) : string :=
  let s := decimal n in
  String.concat "" (replicate (width - String.length s) "0") +:+ s.

(** [d.isoformat()]: YYYY-MM-DD. *)
Definition isoformat (d : date) : string :=
  zero_pad 4 (year d) +:+ "-" +:+ zero_pad 2 (month d) +:+ "-" +:+ zero_pad 2 (day d).

End PyDate.

(** ** Synthetic data (the tuples the script builds) *)

Record Customer := mkCustomer {
  customer_id : Z; customer_name : string; email : string;
  registration_date : string }.

Record Product := mkProduct {
  product_id : Z; product_name : string; category : string; price : float }.

Record Order := mkOrder {
  order_id : Z; order_customer_id : Z; order_date : string;
  total_amount : float }.

(** An element of [order_items]: (order_id, product_id, quantity, price). *)
Record Item := mkItem {
  item_order_id : Z; item_product_id : Z; quantity : Z; unit_price : float }.

Definition products : list Product :=
  [ mkProduct 1 "Smartphone" "Electronics" (B64.decimal2 69999);
    mkProduct 2 "Laptop" "Electronics" (B64.decimal2 119999);
    mkProduct 3 "Tablet" "Electronics" (B64.decimal2 49999);
    mkProduct 4 "Headphones" "Electronics" (B64.decimal2 19999);
    mkProduct 5 "Jeans" "Fashion" (B64.decimal2 4999);
    mkProduct 6 "T-Shirt" "Fashion" (B64.decimal2 1999);
    mkProduct 7 "Sneakers" "Fashion" (B64.decimal2 8999);
    mkProduct 8 "Coffee Maker" "Home & Kitchen" (B64.decimal2 7999);
    mkProduct 9 "Blender" "Home & Kitchen" (B64.decimal2 5999);
    mkProduct 10 "Book" "Books" (B64.decimal2 1499) ].

(** [(datetime.date(2021,1,1) + datetime.timedelta(days=randint(0, 730))).isoformat()] *)
Definition random_date : Gen string :=
  k ← randint 0 730;
  d ← lift_option OverflowError (PyDate.add_days (PyDate.mkdate 2021 1 1) k);
  mret (PyDate.isoformat d).

Section Generator.

(** The script fixes [num_customers = 200] and [num_orders = 1000]; the
    generator is stated for any counts. *)
Variable num_customers : Z.
Variable num_orders : Z.

Definition customer_body (i : Z) (customers : list Customer)
  : Gen (list Customer) :=
  reg_date ← random_date;
  mret (customers ++ [mkCustomer i ("Customer " +:+ PyDate.decimal i)
                       ("customer" +:+ PyDate.decimal i +:+ "@example.com")
                       reg_date]).

Definition gen_customers : Gen (list Customer) :=
  for_each (range 1 (num_customers + 1)) customer_body [].

(** One iteration of the line-item loop; the loop-carried variables are
    [total_amount] and [items]. *)
Definition item_body (order_id : Z) (j : Z) (s : float * list Item)
  : Gen (float * list Item) :=
  let '(total_amount, items) := s in
  k ← randint 0 (Z.of_nat (length products));
  prod ← lift_option IndexError (products !! Z.to_nat k);
  quantity ← randint 1 4;
  mret (B64.add total_amount (B64.mul (price prod) (B64.of_Z quantity)),
       items ++ [mkItem order_id (product_id prod) quantity (price prod)]).

(** One iteration of the order loop; the loop-carried variables are
    [orders], [order_items] and [order_id]. *)
Definition order_body (i : Z) (s : list Order * list Item * Z)
  : Gen (list Order * list Item * Z) :=
  let '(orders, order_items, order_id) := s in
  customer_id ← randint 1 (num_customers + 1);
  order_date ← random_date;
  num_items ← randint 1 6;
  '(total_amount, items) ←
     for_each (range 0 num_items) (item_body order_id) (B64.zero, []);
  mret (orders ++ [mkOrder order_id customer_id order_date
                    (B64.py_round2 total_amount)],
       order_items ++ items,
       order_id + 1).

Definition gen_orders : Gen (list Order * list Item) :=
  '(orders, order_items, _) ←
     for_each (range 0 num_orders) order_body ([], [], 1);
  mret (orders, order_items).

(** The lists the script hands to [executemany]. *)
Record Dataset := mkDataset {
  customers : list Customer;
  orders : list Order;
  order_items : list Item }.

Definition generate : Gen Dataset :=
  cs ← gen_customers;
  '(os, its) ← gen_orders;
  mret (mkDataset cs os its).

End Generator.

Definition num_customers : Z := 200.
Definition num_orders : Z := 1000.

(** ** The SQLite store *)

(** A row of OrderItems: the inserted tuple and the AUTOINCREMENT key the
    store assigns. *)
Record OrderItemRow := mkOrderItemRow {
  order_item_id : Z; oi_order_id : Z; oi_product_id : Z;
  oi_quantity : Z; oi_unit_price : float }.

(** A table is absent ([None]) or holds its rows in insertion order. *)
Record Store := mkStore {
  Customers : option (list Customer);
  Products : option (list Product);
  Orders : option (list Order);
  OrderItems : option (list OrderItemRow) }.

Inductive table := OrderItemsT | OrdersT | ProductsT | CustomersT.

Definition tables : list table := [OrderItemsT; OrdersT; ProductsT; CustomersT].

(** DROP TABLE IF EXISTS *)
Definition drop_table_if_exists (t : table) (db : Store) : Store :=
  match t with
  | OrderItemsT => mkStore (Customers db) (Products db) (Orders db) None
  | OrdersT => mkStore (Customers db) (Products db) None (OrderItems db)
  | ProductsT => mkStore (Customers db) None (Orders db) (OrderItems db)
  | CustomersT => mkStore None (Products db) (Orders db) (OrderItems db)
  end.

(** CREATE TABLE: OperationalError when the table already exists. *)
Definition create_table (t : table) (db : Store) : result Store :=
  let fresh {R} (old : option (list R)) (db' : Store) : result Store :=
    match old with Some _ => Raise OperationalError | None => Ok db' end in
  match t with
  | CustomersT =>
      fresh (Customers db) (mkStore (Some []) (Products db) (Orders db) (OrderItems db))
  | ProductsT =>
      fresh (Products db) (mkStore (Customers db) (Some []) (Orders db) (OrderItems db))
  | OrdersT =>
      fresh (Orders db) (mkStore (Customers db) (Products db) (Some []) (OrderItems db))
  | OrderItemsT =>
      fresh (OrderItems db) (mkStore (Customers db) (Products db) (Orders db) (Some []))
  end.

(** The range of an SQLite INTEGER. *)
Definition int64 (n : Z) : bool := (- 2 ^ 63 <=? n) && (n <? 2 ^ 63).

(** A table with an INTEGER PRIMARY KEY is stored and scanned in key order:
    a new row goes before the first row with a greater key. *)
Fixpoint insert_by_key {R} (key : R -> Z) (row : R) (rows : list R) : list R :=
  match rows with
  | [] => [row]
  | r :: rows' =>
      if key row <? key r then row :: rows else r :: insert_by_key key row rows'
  end.

(** INSERT of one row whose INTEGER PRIMARY KEY is given: OverflowError when
    the key does not fit an SQLite INTEGER (the value cannot be bound),
    IntegrityError when the key is already present. Foreign keys are
    declared but SQLite does not enforce them unless asked to, and the
    script does not ask. Of the columns only the key is examined: the other
    values the script binds are small integers, doubles and ASCII text. *)
Definition insert_keyed {R} (key : R -> Z) (row : R) (rows : list R)
  : result (list R) :=
  if negb (int64 (key row)) then Raise OverflowError
  else if bool_decide (key row ∈ fmap key rows) then Raise IntegrityError
  else Ok (insert_by_key key row rows).

(** [cursor.executemany] over the rows of one table. *)
Fixpoint insert_many {R} (key : R -> Z) (new : list R) (rows : list R)
  : result (list R) :=
  match new with
  | [] => Ok rows
  | r :: new' => rows' ← insert_keyed key r rows; insert_many key new' rows'
  end.

(** INSERT into OrderItems: the key is one more than the largest key of the
    table (the table was created by this run and nothing is deleted). *)
Definition insert_item (it : Item) (rows : list OrderItemRow) : list OrderItemRow :=
  rows ++ [mkOrderItemRow (foldr Z.max 0 (fmap order_item_id rows) + 1)
             (item_order_id it) (item_product_id it) (quantity it) (unit_price it)].

Definition insert_items (new : list Item) (rows : list OrderItemRow)
  : list OrderItemRow :=
  foldl (fun rows it => insert_item it rows) rows new.

Definition no_such_table {A} (o : option A) : result A :=
  match o with Some a => Ok a | None => Raise OperationalError end.

Definition insert_customers (new : list Customer) (db : Store) : result Store :=
  rows ← no_such_table (Customers db);
  rows' ← insert_many customer_id new rows;
  mret (mkStore (Some rows') (Products db) (Orders db) (OrderItems db)).

Definition insert_products (new : list Product) (db : Store) : result Store :=
  rows ← no_such_table (Products db);
  rows' ← insert_many product_id new rows;
  mret (mkStore (Customers db) (Some rows') (Orders db) (OrderItems db)).

Definition insert_orders (new : list Order) (db : Store) : result Store :=
  rows ← no_such_table (Orders db);
  rows' ← insert_many order_id new rows;
  mret (mkStore (Customers db) (Products db) (Some rows') (OrderItems db)).

Definition insert_order_items (new : list Item) (db : Store) : result Store :=
  rows ← no_such_table (OrderItems db);
  mret (mkStore (Customers db) (Products db) (Orders db)
          (Some (insert_items new rows))).

(** ** What SQL leaves to the engine *)

Class SqlEngine := {
  (** ORDER BY: the rows in an order in which no row precedes one that the
      comparison puts strictly before it; where rows compare equal the order
      is the engine's. *)
  order_by : forall A : Type, (A -> A -> bool) -> list A -> list A;
  (** SUM and AVG over REAL values of a non-empty group. *)
  sum_real : list float -> float;
  avg_real : list float -> float;
  order_by_perm : forall A (le : A -> A -> bool) (l : list A),
    order_by A le l ≡ₚ l;
  order_by_sorted : forall A (le : A -> A -> bool) (l : list A),
    (forall x y, le x y = true \/ le y x = true) ->
    (forall x y z, le x y = true -> le y z = true -> le x z = true) ->
    StronglySorted (fun x y => le x y = true) (order_by A le l)
}.
Arguments order_by {_ _} le l.

(** Ascending and descending comparison on an integer sort key. *)
Definition asc {A} (key : A -> Z) (x y : A) : bool := key x <=? key y.
Definition desc {A} (key : A -> Z) (x y : A) : bool := key y <=? key x.

(** GROUP BY: one group per distinct key, holding the rows of that key in
    scan order. *)
Definition group_by {A K} `{EqDecision K} (key : A -> K) (rows : list A)
  : list (K * list A) :=
  fmap (fun k => (k, filter (fun r => key r = k) rows)) (remove_dups (fmap key rows)).

(** SUM over INTEGER values: SQLite raises "integer overflow" when a partial
    sum leaves the 64-bit range. *)
Definition sum_int (l : list Z) : result Z :=
  foldl (fun acc x =>
           s ← acc;
           let s' := s + x in
           if (- 2 ^ 63 <=? s') && (s' <? 2 ^ 63) then Ok s' else Raise OverflowError)
        (Ok 0) l.

(** strftime('%Y-%m', text) on a text of the form YYYY-MM-DD. SQLite accepts
    a day number up to 31 in every month and carries the excess into the
    following month. Time values in other formats are outside this model and
    yield NULL here. *)
Definition digit_val (c : ascii) : option Z :=
  let n := Z.of_N (N_of_ascii c) in
  if (48 <=? n) && (n <=? 57) then Some (n - 48) else None.

Definition digits_val (cs : list ascii) : option Z :=
  foldl (fun acc c => a ← acc; d ← digit_val c; Some (10 * a + d)) (Some 0) cs.

Definition parse_ymd (s : string) : option (Z * Z * Z) :=
  match list_ascii_of_string s with
  | [y1; y2; y3; y4; s1; m1; m2; s2; d1; d2] =>
      if Ascii.eqb s1 "-"%char && Ascii.eqb s2 "-"%char then
        y ← digits_val [y1; y2; y3; y4];
        m ← digits_val [m1; m2];
        d ← digits_val [d1; d2];
        Some (y, m, d)
      else None
  | _ => None
  end.

Definition strftime_Ym (text : string) : option string :=
  '(y, m, d) ← parse_ymd text;
  if (1 <=? m) && (m <=? 12) && (1 <=? d) && (d <=? 31) then
    let dt := PyDate.ord2ymd (PyDate.ymd2ord (PyDate.mkdate y m 1) + d - 1) in
    Some (PyDate.zero_pad 4 (PyDate.year dt) +:+ "-" +:+ PyDate.zero_pad 2 (PyDate.month dt))
  else None.

(** Ascending order of TEXT values (bytewise), NULL first. *)
Definition text_le (a b : option string) : bool :=
  match a, b with
  | None, _ => true
  | Some _, None => false
  | Some x, Some y => String.leb x y
  end.

(** ** The four queries *)

Record SpendingRow := mkSpendingRow {
  sp_customer_id : Z; sp_name : string; total_spent : float }.

Record MonthRow := mkMonthRow {
  order_month : option string; monthly_sales : float }.

Record ProductRow := mkProductRow {
  pr_name : string; pr_category : string; total_quantity : Z }.

Record SegmentRow := mkSegmentRow {
  sg_customer_id : Z; sg_name : string; avg_order_value : float;
  spending_rank : Z }.

(** RANK() over rows already in window order: a row that is a peer of its
    predecessor takes the predecessor's rank, any other row its position. *)
Fixpoint assign_ranks {A} (key : A -> Z) (prev : option (Z * Z)) (pos : Z)
    (rows : list A) : list (A * Z) :=
  match rows with
  | [] => []
  | r :: rest =>
      let rk := match prev with
                | Some (k, rk') => if k =? key r then rk' else pos
                | None => pos
                end in
      (r, rk) :: assign_ranks key (Some (key r, rk)) (pos + 1) rest
  end.

Section Queries.

Context {E : SqlEngine}.

(** Customers c JOIN Orders o ON c.customer_id = o.customer_id *)
Definition join_customers_orders (cs : list Customer) (os : list Order)
  : list (Customer * Order) :=
  c ← cs; o ← filter (fun o => order_customer_id o = customer_id c) os; [(c, o)].

(** GROUP BY c.customer_id, c.name over the join, with an aggregate over
    the group's total_amount values. *)
Definition per_customer (agg : list float -> float) (cs : list Customer)
    (os : list Order) : list (Z * string * float) :=
  fmap (fun g => (fst g, agg (fmap (fun co => total_amount (snd co)) (snd g))))
      (group_by (fun co => (customer_id (fst co), customer_name (fst co)))
                (join_customers_orders cs os)).

Definition CustomerSpending (cs : list Customer) (os : list Order)
  : list SpendingRow :=
  fmap (fun '(id, name, total) => mkSpendingRow id name total)
      (per_customer sum_real cs os).

Definition query_top_customers (db : Store) : result (list SpendingRow) :=
  cs ← no_such_table (Customers db);
  os ← no_such_table (Orders db);
  mret (take 10 (order_by (desc (fun r => B64.real_key (total_spent r)))
                          (CustomerSpending cs os))).

Definition query_monthly_sales (db : Store) : result (list MonthRow) :=
  os ← no_such_table (Orders db);
  mret (order_by (fun r1 r2 => text_le (order_month r1) (order_month r2))
          (fmap (fun g => mkMonthRow (fst g) (sum_real (fmap total_amount (snd g))))
               (group_by (fun o => strftime_Ym (order_date o)) os))).

(** OrderItems oi JOIN Products p ON oi.product_id = p.product_id *)
Definition join_items_products (ois : list OrderItemRow) (ps : list Product)
  : list (OrderItemRow * Product) :=
  oi ← ois; p ← filter (fun p => oi_product_id oi = product_id p) ps; [(oi, p)].

Definition query_best_products (db : Store) : result (list ProductRow) :=
  ois ← no_such_table (OrderItems db);
  ps ← no_such_table (Products db);
  rows ← mapM (fun g =>
                 q ← sum_int (fmap (fun op => oi_quantity (fst op)) (snd g));
                 mret (mkProductRow (fst (fst g)) (snd (fst g)) q))
              (group_by (fun op => (product_name (snd op), category (snd op)))
                        (join_items_products ois ps));
  mret (take 10 (order_by (desc total_quantity) rows)).

Definition CustomerOrders (cs : list Customer) (os : list Order)
  : list (Z * string * float) :=
  per_customer avg_real cs os.

Definition ranked_customers (cs : list Customer) (os : list Order)
  : list SegmentRow :=
  fmap (fun '((id, name, avg), rk) => mkSegmentRow id name avg rk)
      (assign_ranks (fun r => B64.real_key (snd r)) None 1
         (order_by (desc (fun r => B64.real_key (snd r))) (CustomerOrders cs os))).

Definition query_customer_segmentation (db : Store) : result (list SegmentRow) :=
  cs ← no_such_table (Customers db);
  os ← no_such_table (Orders db);
  mret (take 10 (order_by (asc spending_rank) (ranked_customers cs os))).

End Queries.

(** ** The file system and the two scripts *)

(** [dirs] and [files] are the paths of the existing directories and regular
    files; [denied] are the paths at which the system refuses to create or
    write an entry (permissions, read-only medium). The content of a file is
    not modelled. *)
Record FileSystem := mkFS { dirs : gset string; files : gset string; denied : gset string }.

Definition slash : ascii := "/"%char.

Fixpoint drop_while {A} (f : A -> bool) (l : list A) : list A :=
  match l with
  | x :: l' => if f x then drop_while f l' else l
  | [] => []
  end.

(** [os.path.dirname]: the text before the last slash, without trailing
    slashes unless it consists of slashes only. *)
Definition os_path_dirname (p : string) : string :=
  let rev_head := drop_while (fun c => negb (Ascii.eqb c slash))
                             (rev (list_ascii_of_string p)) in
  if forallb (fun c => Ascii.eqb c slash) rev_head
  then string_of_list_ascii (rev rev_head)
  else string_of_list_ascii (rev (drop_while (fun c => Ascii.eqb c slash) rev_head)).

(** [os.path.join] of two components. *)
Definition os_path_join (a b : string) : string :=
  match list_ascii_of_string b, rev (list_ascii_of_string a) with
  | c :: _, _ => if Ascii.eqb c slash then b
                 else match rev (list_ascii_of_string a) with
                      | [] => b
                      | l :: _ => if Ascii.eqb l slash then a +:+ b
                                  else a +:+ "/" +:+ b
                      end
  | [], [] => b
  | [], l :: _ => if Ascii.eqb l slash then a else a +:+ "/"
  end.

Record World := mkWorld { fs : FileSystem; db : Store; rng : RandomState }.

(** A script returns or dies with an exception; either way it leaves a
    world behind. *)
Inductive outcome (A : Type) :=
| Done (a : A) (w : World)
| Failed (e : exn) (w : World).
Arguments Done {A} a w.
Arguments Failed {A} e w.

Definition Script (A : Type) : Type := World -> outcome A.

Global Instance script_ret : MRet Script := fun A (a : A) w => Done a w.

Global Instance script_bind : MBind Script :=
  fun A B (k : A -> Script B) (m : Script A) w =>
    match m w with
    | Done a w' => k a w'
    | Failed e w' => Failed e w'
    end.

Definition os_path_exists (p : string) : Script bool :=
  fun w => Done (bool_decide (p ∈ dirs (fs w)) || bool_decide (p ∈ files (fs w))) w.

(** [os.makedirs] of a path of one component. *)
Definition os_makedirs (p : string) : Script unit :=
  fun w =>
    let f := fs w in
    if bool_decide (p ∈ dirs f) || bool_decide (p ∈ files f)
    then Failed FileExistsError w
    else if bool_decide (p ∈ denied f) then Failed PermissionError w
    else Done () (mkWorld (mkFS ({[p]} ∪ dirs f) (files f) (denied f)) (db w) (rng w)).

(** [plt.savefig(path)]: creates or overwrites the file; the directory part
    of the path must be an existing directory. *)
Definition savefig (path : string) : Script unit :=
  fun w =>
    let f := fs w in
    let d := os_path_dirname path in
    if bool_decide (d ∈ files f) then Failed NotADirectoryError w
    else if negb (bool_decide (d = "") || bool_decide (d ∈ dirs f))
    then Failed FileNotFoundError w
    else if bool_decide (path ∈ dirs f) then Failed IsADirectoryError w
    else if bool_decide (path ∈ denied f) then Failed PermissionError w
    else Done () (mkWorld (mkFS (dirs f) ({[path]} ∪ files f) (denied f)) (db w) (rng w)).

(** [cursor.execute] / [cursor.executemany] of a statement changing the
    store. *)
Definition execute (stmt : Store -> result Store) : Script unit :=
  fun w =>
    match stmt (db w) with
    | Ok db' => Done () (mkWorld (fs w) db' (rng w))
    | Raise e => Failed e w
    end.

(** [pd.read_sql_query]. *)
Definition read_sql_query {A} (query : Store -> result A) : Script A :=
  fun w =>
    match query (db w) with
    | Ok a => Done a w
    | Raise e => Failed e w
    end.

(** Code drawing from the process-wide random source. *)
Definition draw {A} (g : Gen A) : Script A :=
  fun w =>
    match g (rng w) with
    | Ok (a, rs) => Done a (mkWorld (fs w) (db w) rs)
    | Raise e => Failed e w
    end.

Fixpoint for_script {I} (l : list I) (body : I -> Script unit) : Script unit :=
  match l with
  | [] => mret ()
  | i :: l' => body i;; for_script l' body
  end.

Definition OUTPUT_DIR : string := "sql_analysis_images".

(** The four DataFrames of a run. *)
Record Report := mkReport {
  df_top_customers : list SpendingRow;
  df_monthly_sales : list MonthRow;
  df_best_products : list ProductRow;
  df_customer_segmentation : list SegmentRow }.

Section Script.

Context {E : SqlEngine}.

(** Setup: create the output folder for images. *)
Definition setup_output_dir : Script unit :=
  present ← os_path_exists OUTPUT_DIR;
  if negb present then os_makedirs OUTPUT_DIR else mret ().

(** Drop tables if they exist to start fresh. *)
Definition drop_tables : Script unit :=
  for_script tables (fun t => execute (fun db => Ok (drop_table_if_exists t db))).

Definition create_tables : Script unit :=
  execute (create_table CustomersT);;
  execute (create_table ProductsT);;
  execute (create_table OrdersT);;
  execute (create_table OrderItemsT).

(** Insert synthetic data. *)
Definition insert_synthetic_data : Script unit :=
  customers ← draw (gen_customers num_customers);
  execute (insert_customers customers);;
  execute (insert_products products);;
  '(orders, order_items) ← draw (gen_orders num_customers num_orders);
  execute (insert_orders orders);;
  execute (insert_order_items order_items).

(** Advanced SQL queries. *)
Definition run_queries : Script Report :=
  top ← read_sql_query query_top_customers;
  monthly ← read_sql_query query_monthly_sales;
  best ← read_sql_query query_best_products;
  segmentation ← read_sql_query query_customer_segmentation;
  mret (mkReport top monthly best segmentation).

(** Visualization and export of the images. *)
Definition export_images : Script unit :=
  savefig (os_path_join OUTPUT_DIR "monthly_sales_trend.png");;
  savefig (os_path_join OUTPUT_DIR "best_selling_products.png");;
  savefig (os_path_join OUTPUT_DIR "top_customers_spending.png");;
  savefig (os_path_join OUTPUT_DIR "customer_segmentation.png").

(** [sql_data_analysis.py] from top to bottom (printing left out). *)
Definition sql_data_analysis : Script Report :=
  setup_output_dir;;
  drop_tables;;
  create_tables;;
  insert_synthetic_data;;
  report ← run_queries;
  export_images;;
  mret report.

End Script.

(** [generate_visualizations.py]: each function draws sample data, plots it
    and saves the figure; only the save touches the world outside the
    process. *)
Definition create_monthly_sales_trend : Script unit :=
  savefig "images/monthly_sales_trend.png".

Definition create_customer_segmentation : Script unit :=
  savefig "images/customer_segmentation.png".

Definition create_best_selling_products : Script unit :=
  savefig "images/best_selling_products.png".

Definition create_top_customer_spending : Script unit :=
  savefig "images/top_customers_spending.png".

Definition generate_visualizations : Script unit :=
  create_monthly_sales_trend;;
  create_customer_segmentation;;
  create_best_selling_products;;
  create_top_customer_spending.

(** ** Two engines *)

(** Insertion sort: rows that compare equal keep their input order. *)
Fixpoint insert_sorted {A} (le : A -> A -> bool) (x : A) (l : list A) : list A :=
  match l with
  | [] => [x]
  | y :: l' => if le x y then x :: l else y :: insert_sorted le x l'
  end.

Definition insertion_sort {A} (le : A -> A -> bool) (l : list A) : list A :=
  foldr (insert_sorted le) [] l.

(** SUM over REAL values by left-to-right double addition, and AVG as that
    sum over the count. *)
Definition naive_sum (l : list float) : float := foldl B64.add B64.zero l.

Definition naive_avg (l : list float) : float :=
  B64.div (naive_sum l) (B64.of_Z (Z.of_nat (length l))).

(** * Proofs *)

(** ** Reasoning about computations that draw random numbers *)

(** [gen_wp m rs Q]: started on [rs], [m] returns, with a value and a final
    random state that satisfy [Q]. *)
Definition gen_wp {A} (m : Gen A) (rs : RandomState)
    (Q : A -> RandomState -> Prop) : Prop :=
  match m rs with
  | Ok (a, rs') => Q a rs'
  | Raise _ => False
  end.

Lemma gen_wp_ret {A} (a : A) rs (Q : A -> RandomState -> Prop) :
  Q a rs -> gen_wp (mret a) rs Q.
Proof. done. Qed.

Lemma gen_wp_bind {A B} (m : Gen A) (k : A -> Gen B) rs Q :
  gen_wp m rs (fun a rs' => gen_wp (k a) rs' Q) -> gen_wp (m ≫= k) rs Q.
Proof.
  unfold gen_wp, mbind, gen_bind. by destruct (m rs) as [[a rs']|e].
Qed.

Lemma gen_wp_mono {A} (m : Gen A) rs (P Q : A -> RandomState -> Prop) :
  gen_wp m rs P -> (forall a rs', P a rs' -> Q a rs') -> gen_wp m rs Q.
Proof.
  unfold gen_wp. destruct (m rs) as [[a rs']|e]; [|done]. intros HP HPQ. by apply HPQ.
Qed.

Lemma gen_wp_elim {A} (m : Gen A) rs Q :
  gen_wp m rs Q -> exists a rs', m rs = Ok (a, rs') /\ Q a rs'.
Proof.
  unfold gen_wp. destruct (m rs) as [[a rs']|e]; [|done]. eauto.
Qed.

Lemma gen_wp_randint low high rs (Q : Z -> RandomState -> Prop) :
  low < high ->
  (forall v, low <= v < high -> Q v (mkRandomState (raw rs) (S (cursor rs)))) ->
  gen_wp (randint low high) rs Q.
Proof.
  intros Hlt HQ. unfold gen_wp, randint.
  destruct (Z.ltb_spec low high); [|lia].
  apply HQ. pose proof (Z.mod_pos_bound (Z.of_N (raw rs (cursor rs))) (high - low)). lia.
Qed.

Lemma gen_wp_lift_option {A} e (o : option A) rs Q a :
  o = Some a -> Q a rs -> gen_wp (lift_option e o) rs Q.
Proof. by intros ->. Qed.

(** The loop rule: [Inv done s rs] relates the indices already processed to
    the loop-carried variables. *)
Lemma gen_wp_for_each {I S} (Inv : list I -> S -> RandomState -> Prop)
    (l : list I) (body : I -> S -> Gen S) :
  (forall done i s rs, i ∈ l -> Inv done s rs ->
     gen_wp (body i s) rs (Inv (done ++ [i]))) ->
  forall done s rs, Inv done s rs ->
    gen_wp (for_each l body s) rs (Inv (done ++ l)).
Proof.
  induction l as [|i l IH]; intros Hbody done s rs HI; simpl.
  - rewrite app_nil_r. by apply gen_wp_ret.
  - apply gen_wp_bind.
    eapply gen_wp_mono; [apply Hbody; [left|done]|].
    intros s' rs' HI'. replace (done ++ i :: l) with ((done ++ [i]) ++ l)
      by (by rewrite <- app_assoc).
    apply IH; [|done]. intros done' j s0 rs0 Hj. apply Hbody. by right.
Qed.

Lemma range_length start stop : length (range start stop) = Z.to_nat (stop - start).
Proof. unfold range. by rewrite length_seqZ. Qed.

Lemma elem_of_range i start stop : i ∈ range start stop <-> start <= i < stop.
Proof. unfold range. rewrite elem_of_seqZ. lia. Qed.

(** ** The dates the generator can produce *)

Definition generated_dates : list string :=
  fmap (fun k => PyDate.isoformat
                  (PyDate.ord2ymd (PyDate.ymd2ord (PyDate.mkdate 2021 1 1) + k)))
      (seqZ 0 730).

Lemma gen_wp_random_date rs (Q : string -> RandomState -> Prop) :
  (forall d, d ∈ generated_dates -> Q d (mkRandomState (raw rs) (S (cursor rs)))) ->
  gen_wp random_date rs Q.
Proof.
  intros HQ. unfold random_date.
  apply gen_wp_bind, gen_wp_randint; [lia|]. intros k Hk.
  apply gen_wp_bind.
  assert (PyDate.add_days (PyDate.mkdate 2021 1 1) k
          = Some (PyDate.ord2ymd (PyDate.ymd2ord (PyDate.mkdate 2021 1 1) + k))) as Hadd.
  { unfold PyDate.add_days.
    change (PyDate.ymd2ord (PyDate.mkdate 2021 1 1)) with 737791.
    unfold PyDate.MAXORDINAL.
    destruct (Z.ltb_spec 0 (737791 + k)); [|lia].
    destruct (Z.leb_spec (737791 + k) 3652059); [done|lia]. }
  eapply gen_wp_lift_option; [exact Hadd|].
  apply gen_wp_ret, HQ. unfold generated_dates.
  apply list_elem_of_fmap. exists k. split; [done|].
  apply elem_of_seqZ. lia.
Qed.

(** ** What the generator produces *)

Definition customer_wf (c : Customer) : Prop :=
  customer_name c = "Customer " +:+ PyDate.decimal (customer_id c)
  /\ email c = "customer" +:+ PyDate.decimal (customer_id c) +:+ "@example.com"
  /\ registration_date c ∈ generated_dates.

(** The line item belongs to order [oid], names a catalog product at its
    catalog price, and has a quantity of 1 to 3. *)
Definition item_wf (oid : Z) (it : Item) : Prop :=
  item_order_id it = oid
  /\ 1 <= quantity it <= 3
  /\ exists p, p ∈ products /\ product_id p = item_product_id it
               /\ price p = unit_price it.

(** The running total of the line-item loop, in double arithmetic. *)
Definition float_total (items : list Item) : float :=
  foldl (fun acc it => B64.add acc (B64.mul (unit_price it) (B64.of_Z (quantity it))))
        B64.zero items.

(** An order together with the line items generated for it. *)
Definition order_wf (nc : Z) (g : Order * list Item) : Prop :=
  1 <= order_customer_id g.1 <= nc
  /\ order_date g.1 ∈ generated_dates
  /\ (1 <= length g.2 <= 5)%nat
  /\ Forall (item_wf (order_id g.1)) g.2
  /\ total_amount g.1 = B64.py_round2 (float_total g.2).

(** [orders] and [order_items] are the orders numbered from 1 and the
    concatenation of their line items. *)
Definition grouped (nc : Z) (os : list Order) (its : list Item)
    (g : list (Order * list Item)) : Prop :=
  os = g.*1 /\ its = mjoin g.*2 /\ Forall (order_wf nc) g
  /\ order_id <$> os = seqZ 1 (Z.of_nat (length os)).

Lemma gen_customers_wp nc rs :
  gen_wp (gen_customers nc) rs (fun cs rs' =>
    customer_id <$> cs = range 1 (nc + 1) /\ Forall customer_wf cs
    /\ cursor rs' = (cursor rs + length cs)%nat /\ raw rs' = raw rs).
Proof.
  unfold gen_customers.
  pose (Inv := fun (done : list Z) (cs : list Customer) (rs' : RandomState) =>
    customer_id <$> cs = done /\ Forall customer_wf cs
    /\ cursor rs' = (cursor rs + length cs)%nat /\ raw rs' = raw rs).
  eapply gen_wp_mono.
  - apply (gen_wp_for_each Inv) with (done := []).
    + intros done i cs rs1 _ (Hids & Hwf & Hcur & Hraw). unfold customer_body.
      apply gen_wp_bind, gen_wp_random_date. intros d Hd.
      apply gen_wp_ret. unfold Inv. rewrite fmap_app, length_app, Hids. simpl.
      repeat split; [|lia|done].
      apply Forall_app. split; [done|]. apply Forall_singleton. by repeat split.
    + unfold Inv. simpl. repeat split; [constructor|lia].
  - intros cs rs' HI. exact HI.
Qed.

Lemma float_total_snoc items it :
  float_total (items ++ [it])
  = B64.add (float_total items) (B64.mul (unit_price it) (B64.of_Z (quantity it))).
Proof. unfold float_total. by rewrite foldl_app. Qed.

Lemma gen_items_wp oid n rs :
  gen_wp (for_each (range 0 n) (item_body oid) (B64.zero, [])) rs (fun s rs' =>
    s.1 = float_total s.2 /\ length s.2 = Z.to_nat n /\ Forall (item_wf oid) s.2
    /\ cursor rs' = (cursor rs + 2 * length s.2)%nat /\ raw rs' = raw rs).
Proof.
  pose (Inv := fun (done : list Z) (s : float * list Item) (rs' : RandomState) =>
    s.1 = float_total s.2 /\ length s.2 = length done /\ Forall (item_wf oid) s.2
    /\ cursor rs' = (cursor rs + 2 * length s.2)%nat /\ raw rs' = raw rs).
  eapply gen_wp_mono.
  - apply (gen_wp_for_each Inv) with (done := []).
    + intros done j [total items] rs1 _ (Htot & Hlen & Hwf & Hcur & Hraw).
      simpl in *. apply gen_wp_bind, gen_wp_randint; [done|]. intros k Hk.
      apply gen_wp_bind.
      destruct (lookup_lt_is_Some_2 products (Z.to_nat k)) as [p Hp];
        [simpl in *; lia|].
      eapply gen_wp_lift_option; [exact Hp|].
      apply gen_wp_bind, gen_wp_randint; [lia|]. intros q Hq.
      apply gen_wp_ret. unfold Inv. simpl.
      rewrite float_total_snoc, !length_app, Htot. simpl.
      repeat split; [lia| |lia|done].
      apply Forall_app. split; [done|]. apply Forall_singleton.
      repeat split; simpl; [lia..|].
      exists p. repeat split. by eapply list_elem_of_lookup_2.
    + unfold Inv. simpl. repeat split; [constructor|lia].
  - intros s rs' (Htot & Hlen & Hwf & Hcur & Hraw).
    simpl in Hlen. rewrite range_length in Hlen. repeat split; try done.
    rewrite Hlen. f_equal. lia.
Qed.

Lemma gen_orders_wp nc no rs :
  0 < nc ->
  gen_wp (gen_orders nc no) rs (fun r rs' =>
    (exists g, grouped nc r.1 r.2 g)
    /\ length r.1 = Z.to_nat no
    /\ cursor rs' = (cursor rs + 3 * length r.1 + 2 * length r.2)%nat
    /\ raw rs' = raw rs).
Proof.
  intros Hnc. unfold gen_orders.
  pose (Inv := fun (done : list Z) (s : list Order * list Item * Z)
                   (rs' : RandomState) =>
    (exists g, grouped nc s.1.1 s.1.2 g)
    /\ length s.1.1 = length done
    /\ s.2 = 1 + Z.of_nat (length s.1.1)
    /\ cursor rs' = (cursor rs + 3 * length s.1.1 + 2 * length s.1.2)%nat
    /\ raw rs' = raw rs).
  apply gen_wp_bind. eapply gen_wp_mono.
  - apply (gen_wp_for_each Inv) with (done := []).
    + intros done i [[os its] oid] rs1 _ ([g Hg] & Hlen & Hoid & Hcur & Hraw).
      simpl in *. apply gen_wp_bind, gen_wp_randint; [lia|]. intros cid Hcid.
      apply gen_wp_bind, gen_wp_random_date. intros d Hd.
      apply gen_wp_bind, gen_wp_randint; [lia|]. intros n Hn.
      apply gen_wp_bind. eapply gen_wp_mono; [apply gen_items_wp|].
      intros [total items] rs2 (Htot & Hitems & Hwf & Hcur2 & Hraw2). simpl in *.
      apply gen_wp_ret. unfold Inv. simpl. rewrite !length_app. simpl.
      repeat split; [|lia|lia|lia|congruence].
      destruct Hg as (Hos & Hits & Hall & Hids).
      exists (g ++ [(mkOrder oid cid d (B64.py_round2 total), items)]).
      unfold grouped. rewrite !fmap_app, join_app, length_app. simpl.
      rewrite app_nil_r, <- Hos, <- Hits, Hids.
      repeat split.
      * apply Forall_app. split; [done|]. apply Forall_singleton.
        unfold order_wf. simpl. repeat split; [lia|lia|done|lia|lia|done|by f_equal].
      * replace (Z.of_nat (length os + 1)) with (Z.of_nat (S (length os))) by lia.
        rewrite seqZ_S. by rewrite Hoid.
    + unfold Inv. simpl. repeat split; [|lia]. exists []. by repeat split.
  - intros [[os its] oid] rs' ([g Hg] & Hlen & Hoid & Hcur & Hraw). simpl in *.
    apply gen_wp_ret. simpl. rewrite range_length in Hlen.
    repeat split; [by exists g|rewrite Hlen; f_equal; lia|done|done].
Qed.

(** [generate] returns whenever there is a customer to order. *)
Lemma generate_wp nc no rs :
  0 < nc ->
  gen_wp (generate nc no) rs (fun d rs' =>
    customer_id <$> customers d = range 1 (nc + 1)
    /\ Forall customer_wf (customers d)
    /\ (exists g, grouped nc (orders d) (order_items d) g)
    /\ length (orders d) = Z.to_nat no
    /\ cursor rs' = (cursor rs + length (customers d) + 3 * length (orders d)
                     + 2 * length (order_items d))%nat
    /\ raw rs' = raw rs).
Proof.
  intros Hnc. unfold generate.
  apply gen_wp_bind. eapply gen_wp_mono; [apply gen_customers_wp|].
  intros cs rs1 (Hids & Hwf & Hcur & Hraw).
  apply gen_wp_bind. eapply gen_wp_mono; [by apply gen_orders_wp|].
  intros [os its] rs2 (Hg & Hlen & Hcur2 & Hraw2). simpl in *.
  apply gen_wp_ret. simpl. repeat split; [done..|lia|congruence].
Qed.

(** ** Line items of an order *)

Lemma filter_all {A} (P : A -> Prop) `{!forall x, Decision (P x)} (l : list A) :
  Forall P l -> filter P l = l.
Proof.
  induction 1 as [|x l Hx _ IH]; [done|]. by rewrite filter_cons_True, IH.
Qed.

Lemma filter_none {A} (P : A -> Prop) `{!forall x, Decision (P x)} (l : list A) :
  Forall (fun x => ~ P x) l -> filter P l = [].
Proof.
  induction 1 as [|x l Hx _ IH]; [done|]. by rewrite filter_cons_False.
Qed.

(** Selecting from the concatenated line items those that carry the
    identifier of one order gives back the items generated for it. *)
Lemma filter_join_groups (g : list (Order * list Item)) o items :
  NoDup (order_id <$> g.*1) ->
  Forall (fun x => Forall (fun it => item_order_id it = order_id x.1) x.2) g ->
  (o, items) ∈ g ->
  filter (fun it => item_order_id it = order_id o) (mjoin g.*2) = items.
Proof.
  induction g as [|[o' items'] g IH]; intros Hnd Hall Hin.
  - by apply elem_of_nil in Hin.
  - rewrite !fmap_cons in Hnd. rewrite fmap_cons.
    change (mjoin ((o', items').2 :: g.*2)) with (items' ++ mjoin g.*2).
    change ((o', items').1) with o' in Hnd.
    apply NoDup_cons in Hnd as [Hfresh Hnd].
    apply Forall_cons in Hall as [Hhd Hall]. cbn [snd fst] in Hhd.
    rewrite filter_app. apply elem_of_cons in Hin as [Heq|Hin].
    + injection Heq as -> ->. rewrite filter_all by done.
      rewrite filter_none; [by rewrite app_nil_r|].
      apply Forall_join, Forall_fmap, Forall_forall.
      intros [o2 items2] Hx. simpl.
      pose proof (proj1 (Forall_forall _ _) Hall _ Hx) as Hids. simpl in Hids.
      eapply Forall_impl; [exact Hids|]. intros it Hit Heq. simpl in *.
      apply Hfresh. rewrite <- Heq, Hit.
      apply list_elem_of_fmap. exists o2. split; [done|].
      apply list_elem_of_fmap. by exists (o2, items2).
    + rewrite (filter_none _ items'), IH; [done..|].
      eapply Forall_impl; [exact Hhd|]. intros it Hit Heq. simpl in *.
      apply Hfresh. rewrite <- Hit, Heq.
      apply list_elem_of_fmap. exists o. split; [done|].
      apply list_elem_of_fmap. by exists (o, items).
Qed.

Lemma grouped_ids nc os its g :
  grouped nc os its g ->
  Forall (fun x => Forall (fun it => item_order_id it = order_id x.1) x.2) g.
Proof.
  intros (_ & _ & Hall & _). eapply Forall_impl; [exact Hall|].
  intros [o items] (_ & _ & _ & Hwf & _). simpl in *.
  eapply Forall_impl; [exact Hwf|]. by intros it [? _].
Qed.

Lemma grouped_items_of nc os its g o items :
  grouped nc os its g -> (o, items) ∈ g ->
  filter (fun it => item_order_id it = order_id o) its = items.
Proof.
  intros Hg Hin. pose proof (grouped_ids _ _ _ _ Hg) as Hids.
  destruct Hg as (Hos & Hits & _ & Hseq). subst os its.
  apply filter_join_groups; [|done..]. rewrite Hseq. apply NoDup_seqZ.
Qed.

Lemma grouped_order nc os its g o :
  grouped nc os its g -> o ∈ os -> exists items, (o, items) ∈ g.
Proof.
  intros (-> & _) Hin. apply list_elem_of_fmap in Hin as ([o' items] & -> & Hin).
  by exists items.
Qed.

Lemma grouped_item nc os its g it :
  grouped nc os its g -> it ∈ its ->
  exists o items, (o, items) ∈ g /\ it ∈ items /\ o ∈ os.
Proof.
  intros (-> & -> & _) Hin. apply list_elem_of_join in Hin as (items & Hit & Hin).
  apply list_elem_of_fmap in Hin as ([o items'] & -> & Hin).
  exists o, items'. repeat split; [done..|].
  apply list_elem_of_fmap. by exists (o, items').
Qed.

(** ** The running total in double arithmetic

    Every value the running total can take after one to five line items is
    enumerated, together with the exact number of cents it stands for. *)

(** The price in cents that a REAL price denotes. *)
Definition price_cents (x : float) : Z := B64.round_cents (B64.to_Q x).

Definition item_cents (it : Item) : Z := quantity it * price_cents (unit_price it).

Definition cents_total (items : list Item) : Z :=
  foldr (fun it acc => item_cents it + acc) 0 items.

(** What one line item can add: cents, and the double [price * quantity]. *)
Definition terms : list (Z * float) :=
  p ← products; q ← [1; 2; 3];
  [(q * price_cents (price p), B64.mul (price p) (B64.of_Z q))].

(** A set of states (cents, running total), indexed by the cents. *)
Definition add_state (M : gmap Z (list float)) (s : Z * float)
  : gmap Z (list float) :=
  let l := default [] (M !! s.1) in
  if existsb (B64.eqb s.2) l then M else <[s.1 := s.2 :: l]> M.

Definition successors (M : gmap Z (list float)) : list (Z * float) :=
  s ← map_to_list M; acc ← s.2; t ← terms; [(s.1 + t.1, B64.add acc t.2)].

Definition level_next (M : gmap Z (list float)) : gmap Z (list float) :=
  foldl add_state ∅ (successors M).

Fixpoint levels (k : nat) (M : gmap Z (list float)) : list (gmap Z (list float)) :=
  match k with
  | O => []
  | S k' => let M' := level_next M in M' :: levels k' M'
  end.

Definition level0 : gmap Z (list float) := {[ 0 := [B64.zero] ]}.

Definition in_states (M : gmap Z (list float)) (s : Z * float) : Prop :=
  exists l, M !! s.1 = Some l /\ s.2 ∈ l.

(** The running total is a positive finite double that rounds to [n]
    cents. *)
Definition state_ok (n : Z) (acc : float) : bool :=
  match acc with
  | S754_finite false _ _ => B64.round_cents (B64.to_Q acc) =? n
  | _ => false
  end.

Definition level_ok (M : gmap Z (list float)) : bool :=
  forallb (fun s => (0 <? s.1) && B64.is_positive (B64.decimal2 s.1)
                    && forallb (state_ok s.1) s.2)
          (map_to_list M).

Lemma B64_eqb_eq x y : B64.eqb x y = true <-> x = y.
Proof.
  split.
  - destruct x as [s|s| |s m e], y as [s'|s'| |s' m' e']; simpl; try done.
    + intros H. apply Bool.eqb_prop in H. by subst.
    + intros H. apply Bool.eqb_prop in H. by subst.
    + intros H. apply andb_prop in H as [H He]. apply andb_prop in H as [Hs Hm].
      apply Bool.eqb_prop in Hs. apply Pos.eqb_eq in Hm. apply Z.eqb_eq in He.
      by subst.
  - intros <-. destruct x as [s|s| |s m e]; simpl; try done.
    + by destruct s.
    + by destruct s.
    + rewrite Pos.eqb_refl, Z.eqb_refl. by destruct s.
Qed.

Lemma add_state_in M s : in_states (add_state M s) s.
Proof.
  unfold add_state, in_states.
  destruct (existsb (B64.eqb s.2) (default [] (M !! s.1))) eqn:Hex.
  - apply existsb_exists in Hex as (x & Hx & Heq). apply B64_eqb_eq in Heq. subst x.
    destruct (M !! s.1) as [l|] eqn:Hl; simpl in Hx; [|done].
    exists l. split; [done|]. by apply list_elem_of_In.
  - eexists. rewrite lookup_insert_eq. split; [done|]. left.
Qed.

Lemma add_state_mono M s s' : in_states M s' -> in_states (add_state M s) s'.
Proof.
  unfold add_state. intros (l & Hl & Hin).
  destruct (existsb _ _); [by exists l|].
  destruct (decide (s.1 = s'.1)) as [Heq|Hne].
  - unfold in_states. rewrite <- Heq, lookup_insert_eq. eexists. split; [done|].
    rewrite Heq, Hl. simpl. by right.
  - exists l. by rewrite lookup_insert_ne.
Qed.

Lemma foldl_add_state l : forall M s,
  s ∈ l \/ in_states M s -> in_states (foldl add_state M l) s.
Proof.
  induction l as [|x l IH]; intros M s [Hin|Hin]; simpl.
  - by apply elem_of_nil in Hin.
  - done.
  - apply elem_of_cons in Hin as [->|Hin]; apply IH; [right; apply add_state_in|by left].
  - apply IH. right. by apply add_state_mono.
Qed.

Lemma level_next_step M n acc t :
  in_states M (n, acc) -> t ∈ terms ->
  in_states (level_next M) (n + t.1, B64.add acc t.2).
Proof.
  intros (l & Hl & Hin) Ht. apply foldl_add_state. left. unfold successors.
  apply list_elem_of_bind. exists (n, l). split; [|by apply elem_of_map_to_list].
  apply list_elem_of_bind. exists acc. split; [|done].
  apply list_elem_of_bind. exists t. split; [|done]. simpl. left.
Qed.

Lemma levels_lookup k : forall M i,
  (i < k)%nat -> levels k M !! i = Some (Nat.iter (S i) level_next M).
Proof.
  induction k as [|k IH]; intros M i Hi; [lia|]. simpl.
  destruct i as [|i]; [done|]. simpl. rewrite IH by lia. f_equal.
  clear. induction i as [|i IHi]; [done|]. simpl in *. by rewrite IHi.
Qed.

Lemma levels_ok : forallb level_ok (levels 5 level0) = true.
Proof. vm_cast_no_check (eq_refl true). Qed.

Lemma item_term oid it :
  item_wf oid it ->
  (item_cents it, B64.mul (unit_price it) (B64.of_Z (quantity it))) ∈ terms.
Proof.
  intros (_ & Hq & p & Hp & _ & Hprice). unfold terms, item_cents.
  apply list_elem_of_bind. exists p. split; [|done].
  apply list_elem_of_bind. exists (quantity it). split.
  - rewrite Hprice. left.
  - assert (quantity it = 1 \/ quantity it = 2 \/ quantity it = 3) as Hc by lia.
    destruct Hc as [Hc|[Hc|Hc]]; rewrite Hc; repeat constructor.
Qed.

Lemma cents_total_snoc items it :
  cents_total (items ++ [it]) = cents_total items + item_cents it.
Proof.
  unfold cents_total. rewrite foldr_app. simpl.
  induction items as [|x items IH]; simpl; lia.
Qed.

Lemma reachable oid items :
  Forall (item_wf oid) items ->
  in_states (Nat.iter (length items) level_next level0)
            (cents_total items, float_total items).
Proof.
  induction items as [|it items IH] using rev_ind; intros Hwf.
  - unfold in_states. simpl. exists [B64.zero]. split; [apply lookup_singleton_eq|left].
  - apply Forall_app in Hwf as [Hwf Hit]. rewrite Forall_singleton in Hit.
    rewrite length_app, Nat.add_1_r, cents_total_snoc, float_total_snoc. simpl.
    apply (level_next_step _ _ _ (item_cents it, _)); [by apply IH|].
    exact (item_term _ _ Hit).
Qed.

Lemma level_ok_state M s :
  level_ok M = true -> in_states M s ->
  0 < s.1 /\ B64.is_positive (B64.decimal2 s.1) = true /\ state_ok s.1 s.2 = true.
Proof.
  intros Hok (l & Hl & Hin). unfold level_ok in Hok.
  rewrite forallb_forall in Hok.
  specialize (Hok (s.1, l)). simpl in Hok.
  assert (In (s.1, l) (map_to_list M)) as HIn.
  { apply list_elem_of_In. by apply elem_of_map_to_list. }
  apply Hok in HIn. apply andb_prop in HIn as [HIn Hall].
  apply andb_prop in HIn as [Hpos Hdec].
  rewrite forallb_forall in Hall.
  repeat split; [lia|done|]. apply Hall. by apply list_elem_of_In.
Qed.

Lemma order_total nc g :
  order_wf nc g ->
  total_amount g.1 = B64.decimal2 (cents_total g.2)
  /\ 0 < cents_total g.2
  /\ B64.is_positive (total_amount g.1) = true.
Proof.
  intros (_ & _ & Hlen & Hwf & Htot).
  pose proof (reachable _ _ Hwf) as Hreach.
  assert (levels 5 level0 !! (length g.2 - 1)%nat
          = Some (Nat.iter (length g.2) level_next level0)) as Hlook.
  { rewrite levels_lookup by lia. do 2 f_equal. lia. }
  pose proof levels_ok as Hok. rewrite forallb_forall in Hok.
  apply list_elem_of_lookup_2, list_elem_of_In, Hok in Hlook.
  destruct (level_ok_state _ _ Hlook Hreach) as (Hpos & Hdec & Hst). simpl in *.
  assert (B64.py_round2 (float_total g.2) = B64.decimal2 (cents_total g.2)) as Hround.
  { unfold state_ok in Hst. destruct (float_total g.2) as [| | |[] m e]; try done.
    apply Z.eqb_eq in Hst. unfold B64.py_round2. rewrite Hst.
    destruct (cents_total g.2); [lia|done..]. }
  rewrite Htot, Hround. done.
Qed.

(** ** The exact sum of quantity times unit price *)

(** The sum over the line items of quantity times unit price, in exact
    rational arithmetic on the values of the stored doubles. *)
Definition exact_total (items : list Item) : Q :=
  foldr (fun it acc => (inject_Z (quantity it) * B64.to_Q (unit_price it) + acc)%Q)
        0%Q items.

Lemma round_half_even_div_near a b n :
  0 < b -> 2 * Z.abs (a - n * b) < b -> B64.round_half_even_div a b = n.
Proof.
  intros Hb Hnear. unfold B64.round_half_even_div.
  pose proof (Z_div_mod a b ltac:(lia)) as Hdm.
  destruct (Z.div_eucl a b) as [q r]. destruct Hdm as [Ha Hr].
  assert (a - n * b = b * (q - n) + r) as Hk by lia.
  rewrite Hk in Hnear. clear Hk Ha.
  assert (q - n <= -2 \/ q - n = -1 \/ q - n = 0 \/ 1 <= q - n) as Hcases by lia.
  destruct (Z.compare_spec (2 * r) b) as [Heq|Hlt|Hgt];
    destruct Hcases as [Hc|[Hc|[Hc|Hc]]]; try (rewrite Hc in Hnear); try nia.
Qed.

Lemma round_cents_near (x : Q) n :
  (inject_Z n - (1 # 4) <= 100 * x)%Q -> (100 * x <= inject_Z n + (1 # 4))%Q ->
  B64.round_cents x = n.
Proof.
  destruct x as [a d]. unfold Qle, Qminus, Qplus, Qmult, Qopp, inject_Z. simpl.
  intros Hlo Hhi. unfold B64.round_cents. simpl.
  apply round_half_even_div_near; [lia|]. lia.
Qed.

(** Each catalog price is within a thousandth of a cent of a whole number
    of cents. *)
Lemma price_near p :
  p ∈ products ->
  (inject_Z (price_cents (price p)) - (1 # 1000) <= 100 * B64.to_Q (price p))%Q
  /\ (100 * B64.to_Q (price p) <= inject_Z (price_cents (price p)) + (1 # 1000))%Q.
Proof.
  intros Hp. unfold products in Hp.
  repeat (apply elem_of_cons in Hp as [->|Hp];
          [split; apply Qle_bool_iff; vm_compute; reflexivity|]).
  by apply elem_of_nil in Hp.
Qed.

Lemma exact_total_near oid items :
  Forall (item_wf oid) items ->
  (inject_Z (cents_total items) - (3 # 1000) * inject_Z (Z.of_nat (length items))
   <= 100 * exact_total items)%Q
  /\ (100 * exact_total items
      <= inject_Z (cents_total items) + (3 # 1000) * inject_Z (Z.of_nat (length items)))%Q.
Proof.
  induction 1 as [|it items Hit _ IH].
  - split; apply Qle_bool_iff; reflexivity.
  - destruct Hit as (_ & Hq & p & Hp & _ & Hprice).
    destruct (price_near p Hp) as [Hlo Hhi]. rewrite Hprice in Hlo, Hhi.
    change (exact_total (it :: items))
      with (inject_Z (quantity it) * B64.to_Q (unit_price it) + exact_total items)%Q.
    change (cents_total (it :: items)) with (item_cents it + cents_total items).
    change (length (it :: items)) with (S (length items)).
    unfold item_cents.
    rewrite Nat2Z.inj_succ, <- Z.add_1_r, !inject_Z_plus, inject_Z_mult.
    set (v := B64.to_Q (unit_price it)) in *.
    set (c := inject_Z (price_cents (unit_price it))) in *.
    set (E := exact_total items) in *.
    set (C := inject_Z (cents_total items)) in *.
    set (L := inject_Z (Z.of_nat (length items))) in *.
    assert (0 <= L)%Q as HL.
    { unfold L. change 0%Q with (inject_Z 0). rewrite <- Zle_Qle. lia. }
    destruct IH as [IHlo IHhi].
    assert (quantity it = 1 \/ quantity it = 2 \/ quantity it = 3) as Hc by lia.
    destruct Hc as [Hc|[Hc|Hc]]; rewrite Hc; unfold inject_Z; split; lra.
Qed.

(** Rounded to cents, the exact sum is the whole number of cents counted
    from the catalog. *)
Lemma exact_total_cents oid items :
  Forall (item_wf oid) items -> (length items <= 5)%nat ->
  B64.round_cents (exact_total items) = cents_total items.
Proof.
  intros Hwf Hlen. destruct (exact_total_near _ _ Hwf) as [Hlo Hhi].
  assert (inject_Z (Z.of_nat (length items)) <= inject_Z 5)%Q as HL.
  { rewrite <- Zle_Qle. lia. }
  change (inject_Z 5) with (5 # 1)%Q in HL.
  apply round_cents_near; lra.
Qed.

(** ** Sorting, and two engines *)

Lemma insert_sorted_perm {A} (le : A -> A -> bool) x l :
  insert_sorted le x l ≡ₚ x :: l.
Proof.
  induction l as [|y l IH]; simpl; [done|].
  destruct (le x y); [done|]. rewrite IH. apply Permutation_swap.
Qed.

Lemma insertion_sort_perm {A} (le : A -> A -> bool) l :
  insertion_sort le l ≡ₚ l.
Proof.
  induction l as [|x l IH]; simpl; [done|].
  unfold insertion_sort in *. simpl. by rewrite insert_sorted_perm, IH.
Qed.

Lemma insert_sorted_sorted {A} (le : A -> A -> bool) x l :
  (forall x y, le x y = true \/ le y x = true) ->
  (forall x y z, le x y = true -> le y z = true -> le x z = true) ->
  StronglySorted (fun x y => le x y = true) l ->
  StronglySorted (fun x y => le x y = true) (insert_sorted le x l).
Proof.
  intros Htot Htrans. induction 1 as [|y l Hl IH Hy]; simpl.
  - repeat constructor.
  - destruct (le x y) eqn:Hxy.
    + constructor; [by constructor|]. constructor; [done|].
      eapply Forall_impl; [exact Hy|]. intros z Hz. by eapply Htrans.
    + constructor; [done|].
      rewrite insert_sorted_perm. constructor; [|done].
      destruct (Htot x y); congruence.
Qed.

Lemma insertion_sort_sorted {A} (le : A -> A -> bool) l :
  (forall x y, le x y = true \/ le y x = true) ->
  (forall x y z, le x y = true -> le y z = true -> le x z = true) ->
  StronglySorted (fun x y => le x y = true) (insertion_sort le l).
Proof.
  intros Htot Htrans. induction l as [|x l IH]; [constructor|].
  by apply insert_sorted_sorted.
Qed.

(** An engine whose ORDER BY keeps rows that compare equal in scan
    order. *)
Program Instance stable_engine : SqlEngine := {|
  order_by A le l := insertion_sort le l;
  sum_real := naive_sum;
  avg_real := naive_avg |}.
Next Obligation. intros. apply insertion_sort_perm. Qed.
Next Obligation. intros. by apply insertion_sort_sorted. Qed.

Lemma StronglySorted_take {A} (R : relation A) n l :
  StronglySorted R l -> StronglySorted R (take n l).
Proof.
  intros Hs. rewrite <- (take_drop n l) in Hs.
  by apply StronglySorted_app_1_l in Hs.
Qed.

Lemma asc_total {A} (key : A -> Z) x y : asc key x y = true \/ asc key y x = true.
Proof. unfold asc. destruct (Z.leb_spec (key x) (key y)); [by left|right]. apply Z.leb_le. lia. Qed.


Lemma desc_total {A} (key : A -> Z) x y : desc key x y = true \/ desc key y x = true.
Proof. apply (asc_total key y x). Qed.

Lemma desc_trans {A} (key : A -> Z) x y z :
  desc key x y = true -> desc key y z = true -> desc key x z = true.
Proof. unfold desc. rewrite !Z.leb_le. lia. Qed.

Lemma StronglySorted_weaken {A} (R1 R2 : relation A) l :
  (forall x y, R1 x y -> R2 x y) -> StronglySorted R1 l -> StronglySorted R2 l.
Proof.
  intros HR. induction 1 as [|x l Hl IH Hx]; constructor; [done|].
  eapply Forall_impl; [exact Hx|]. intros y. apply HR.
Qed.

Lemma order_by_desc_sorted `{SqlEngine} {A} (key : A -> Z) l :
  StronglySorted (fun x y => key y <= key x) (order_by (desc key) l).
Proof.
  eapply StronglySorted_weaken; [|apply order_by_sorted].
  - intros x y. unfold desc. by rewrite Z.leb_le.
  - apply desc_total.
  - apply desc_trans.
Qed.


Lemma elem_of_order_by `{SqlEngine} {A} (le : A -> A -> bool) l x :
  x ∈ order_by le l <-> x ∈ l.
Proof. by rewrite order_by_perm. Qed.

(** ** Joins and groups *)

Lemma elem_of_group_by {A K} `{EqDecision K} (key : A -> K) rows k rs :
  (k, rs) ∈ group_by key rows
  <-> rs = filter (fun r => key r = k) rows /\ exists r, r ∈ rows /\ key r = k.
Proof.
  unfold group_by. rewrite list_elem_of_fmap. split.
  - intros (k' & Heq & Hk). injection Heq as -> ->. split; [done|].
    apply elem_of_remove_dups, list_elem_of_fmap in Hk as (r & -> & Hr). by exists r.
  - intros (-> & r & Hr & <-). exists (key r). split; [done|].
    apply elem_of_remove_dups, list_elem_of_fmap. by exists r.
Qed.

Lemma group_by_keys {A K} `{EqDecision K} (key : A -> K) rows :
  (group_by key rows).*1 = remove_dups (key <$> rows).
Proof.
  unfold group_by. rewrite <- list_fmap_compose.
  induction (remove_dups (key <$> rows)) as [|k l IH]; [done|]. simpl. by f_equal.
Qed.

Lemma group_by_NoDup {A K} `{EqDecision K} (key : A -> K) rows :
  NoDup (group_by key rows).*1.
Proof. rewrite group_by_keys. apply NoDup_remove_dups. Qed.

Lemma group_by_length {A K} `{EqDecision K} (key : A -> K) rows :
  length (group_by key rows) = length (remove_dups (key <$> rows)).
Proof. unfold group_by. by rewrite length_fmap. Qed.

Lemma elem_of_join_customers_orders cs os c o :
  (c, o) ∈ join_customers_orders cs os
  <-> c ∈ cs /\ o ∈ os /\ order_customer_id o = customer_id c.
Proof.
  unfold join_customers_orders. rewrite list_elem_of_bind. split.
  - intros (c' & Hin & Hc). apply list_elem_of_bind in Hin as (o' & Hin & Ho).
    apply list_elem_of_singleton in Hin. injection Hin as -> ->.
    apply list_elem_of_filter in Ho as [Hid Ho]. done.
  - intros (Hc & Ho & Hid). exists c. split; [|done].
    apply list_elem_of_bind. exists o. split; [left|]. by apply list_elem_of_filter.
Qed.

(** A row of the per-customer aggregate comes from a customer that has an
    order. *)
Lemma elem_of_per_customer agg cs os id name v :
  (id, name, v) ∈ per_customer agg cs os ->
  exists c o, c ∈ cs /\ o ∈ os /\ customer_id c = id /\ customer_name c = name
              /\ order_customer_id o = id.
Proof.
  unfold per_customer. intros Hin.
  apply list_elem_of_fmap in Hin as ([k rs] & Heq & Hin). simpl in Heq.
  injection Heq as <- _. apply elem_of_group_by in Hin as (_ & [c o] & Hco & Hk).
  simpl in Hk. injection Hk as <- <-.
  apply elem_of_join_customers_orders in Hco as (Hc & Ho & Hid). by exists c, o.
Qed.

Lemma join_customers_orders_cons c cs os :
  join_customers_orders (c :: cs) os
  = ((fun o => (c, o)) <$> filter (fun o => order_customer_id o = customer_id c) os)
    ++ join_customers_orders cs os.
Proof.
  unfold join_customers_orders. change (?l ≫= ?f) with (mbind f l) at 1.
  cbn [mbind list_bind]. f_equal.
Qed.

(** Under the primary key, the joined rows of one customer are that
    customer paired with each of their orders, in the order of the
    Orders table. *)
Lemma join_customer_rows cs os c :
  NoDup (customer_id <$> cs) -> c ∈ cs ->
  filter (fun co : Customer * Order =>
            (customer_id co.1, customer_name co.1) = (customer_id c, customer_name c))
         (join_customers_orders cs os)
  = (fun o => (c, o)) <$> filter (fun o => order_customer_id o = customer_id c) os.
Proof.
  induction cs as [|c' cs IH]; intros Hnd Hc; [by apply elem_of_nil in Hc|].
  rewrite fmap_cons in Hnd. apply NoDup_cons in Hnd as [Hfresh Hnd].
  rewrite join_customers_orders_cons, filter_app.
  destruct (decide (customer_id c' = customer_id c)) as [Heq|Hne].
  - assert (c' = c) as ->.
    { apply elem_of_cons in Hc as [->|Hc]; [done|]. exfalso. apply Hfresh.
      rewrite Heq. apply list_elem_of_fmap. by exists c. }
    rewrite (filter_none _ (join_customers_orders cs os)).
    + rewrite app_nil_r. apply filter_all, Forall_forall.
      by intros x (o & -> & _)%list_elem_of_fmap.
    + apply Forall_forall. intros [c2 o] Hin Hk. simpl in Hk. injection Hk as Hid _.
      apply elem_of_join_customers_orders in Hin as (Hc2 & _). apply Hfresh.
      rewrite <- Hid. apply list_elem_of_fmap. by exists c2.
  - apply elem_of_cons in Hc as [->|Hc]; [done|].
    rewrite (filter_none _ (_ <$> _)).
    + by rewrite IH.
    + apply Forall_forall. intros x (o & -> & _)%list_elem_of_fmap Hk. simpl in Hk.
      by injection Hk as Hid _.
Qed.

(** What GROUP BY customer computes under the primary key: one row per
    customer that has an order, aggregating the totals of exactly that
    customer's orders. *)
Lemma per_customer_spec agg cs os id name v :
  NoDup (customer_id <$> cs) ->
  (id, name, v) ∈ per_customer agg cs os ->
  v = agg (total_amount <$> filter (fun o => order_customer_id o = id) os).
Proof.
  intros Hnd Hin. unfold per_customer in Hin.
  apply list_elem_of_fmap in Hin as ([k rs] & Heq & Hin). simpl in Heq.
  injection Heq as Hk' Hv. subst k v.
  apply elem_of_group_by in Hin as (-> & [c o] & Hco & Hk).
  simpl in Hk. injection Hk as <- <-.
  apply elem_of_join_customers_orders in Hco as (Hc & _ & _). f_equal.
  rewrite (join_customer_rows cs os c Hnd Hc), <- list_fmap_compose.
  done.
Qed.

Lemma per_customer_ids agg cs os :
  NoDup (customer_id <$> cs) ->
  NoDup ((fun r : Z * string * float => r.1.1) <$> per_customer agg cs os).
Proof.
  intros Hnd. unfold per_customer. rewrite <- list_fmap_compose.
  set (key := fun co : Customer * Order => (customer_id co.1, customer_name co.1)).
  pose proof (group_by_NoDup key (join_customers_orders cs os)) as Hg.
  assert (forall k, k ∈ (group_by key (join_customers_orders cs os)).*1 ->
            exists c, c ∈ cs /\ k = (customer_id c, customer_name c)) as Hkeys.
  { intros k Hk. rewrite group_by_keys in Hk.
    apply elem_of_remove_dups, list_elem_of_fmap in Hk as ([c o] & -> & Hco).
    apply elem_of_join_customers_orders in Hco as (Hc & _). by exists c. }
  change (NoDup ((fst ∘ fst) <$> group_by key (join_customers_orders cs os))).
  rewrite (list_fmap_compose fst fst).
  apply NoDup_fmap_2_strong; [|done].
  intros k1 k2 Hk1 Hk2 Heq.
  destruct (Hkeys _ Hk1) as (c1 & Hc1 & ->). destruct (Hkeys _ Hk2) as (c2 & Hc2 & ->).
  cbn [fst] in Heq. assert (c1 = c2) as ->; [|done].
  clear -Hnd Hc1 Hc2 Heq. induction cs as [|c cs IH]; [by apply elem_of_nil in Hc1|].
  rewrite fmap_cons in Hnd. apply NoDup_cons in Hnd as [Hfresh Hnd].
  apply elem_of_cons in Hc1 as [->|Hc1]; apply elem_of_cons in Hc2 as [->|Hc2].
  - done.
  - exfalso. apply Hfresh. rewrite Heq. apply list_elem_of_fmap. by exists c2.
  - exfalso. apply Hfresh. rewrite <- Heq. apply list_elem_of_fmap. by exists c1.
  - by apply IH.
Qed.

Lemma take_full_when_cut {A} n (l : list A) :
  drop n l <> [] -> length (take n l) = n.
Proof.
  intros Hne. rewrite length_take. destruct (decide (n <= length l)%nat); [lia|].
  exfalso. apply Hne, drop_ge. lia.
Qed.

(** ** Order of the groups and stability *)

Lemma remove_dups_sublist {A} `{EqDecision A} (l : list A) :
  remove_dups l `sublist_of` l.
Proof.
  induction l as [|x l IH]; [constructor|]. cbn [remove_dups].
  destruct (decide_rel elem_of x l); by constructor.
Qed.

Lemma StronglySorted_sublist {A} (R : relation A) l1 l2 :
  l1 `sublist_of` l2 -> StronglySorted R l2 -> StronglySorted R l1.
Proof.
  induction 1 as [|x l1 l2 Hsub IH|x l1 l2 Hsub IH]; intros Hs; [done|..].
  - apply StronglySorted_cons in Hs as [Hx Hs]. constructor; [by apply IH|].
    apply Forall_forall. intros y Hy.
    apply (proj1 (Forall_forall _ _) Hx), (elem_of_sublist l1); done.
  - apply StronglySorted_cons in Hs as [_ Hs]. by apply IH.
Qed.

Lemma StronglySorted_le_NoDup (l : list Z) :
  StronglySorted Z.le l -> NoDup l -> StronglySorted Z.lt l.
Proof.
  induction 1 as [|x l Hs IH Hx]; intros Hnd; [constructor|].
  apply NoDup_cons in Hnd as [Hfresh Hnd]. constructor; [by apply IH|].
  apply Forall_forall. intros y Hy.
  pose proof (proj1 (Forall_forall _ _) Hx y Hy).
  assert (x <> y) by (by intros ->). lia.
Qed.

Lemma StronglySorted_lt_NoDup (l : list Z) : StronglySorted Z.lt l -> NoDup l.
Proof.
  induction 1 as [|x l Hs IH Hx]; constructor; [|done].
  intros Hin. pose proof (proj1 (Forall_forall _ _) Hx x Hin). lia.
Qed.

(** The join scans Customers in table order, so the customer identifiers
    of its rows never decrease when the table is in key order. *)
Lemma join_customers_orders_ids cs os :
  StronglySorted Z.lt (customer_id <$> cs) ->
  StronglySorted Z.le ((fun co : Customer * Order => customer_id co.1)
                         <$> join_customers_orders cs os).
Proof.
  induction cs as [|c cs IH]; intros Hs; [constructor|].
  rewrite fmap_cons in Hs. apply StronglySorted_cons in Hs as [Hc Hs].
  rewrite join_customers_orders_cons, fmap_app. apply StronglySorted_app_2.
  - intros x1 x2 Hx1 Hx2.
    apply list_elem_of_fmap in Hx1 as (co1 & -> & Hco1).
    apply list_elem_of_fmap in Hco1 as (o1 & -> & _).
    apply list_elem_of_fmap in Hx2 as ([c2 o2] & -> & Hco2).
    apply elem_of_join_customers_orders in Hco2 as (Hc2 & _). cbn [fst].
    assert (customer_id c < customer_id c2); [|lia].
    apply (proj1 (Forall_forall _ _) Hc), list_elem_of_fmap. by exists c2.
  - rewrite <- list_fmap_compose.
    induction (filter (fun o => order_customer_id o = customer_id c) os) as [|o l IHl];
      [constructor|].
    rewrite fmap_cons. constructor; [done|].
    apply Forall_forall. intros x (o' & -> & _)%list_elem_of_fmap. simpl. lia.
  - by apply IH.
Qed.

(** GROUP BY customer over a Customers table in key order gives its rows in
    ascending order of customer identifier. *)
Lemma per_customer_ascending agg cs os :
  StronglySorted Z.lt (customer_id <$> cs) ->
  StronglySorted Z.lt ((fun r : Z * string * float => r.1.1) <$> per_customer agg cs os).
Proof.
  intros Hs. apply StronglySorted_le_NoDup.
  - unfold per_customer. rewrite <- list_fmap_compose.
    set (key := fun co : Customer * Order => (customer_id co.1, customer_name co.1)).
    change (StronglySorted Z.le
              ((fst ∘ fst) <$> group_by key (join_customers_orders cs os))).
    rewrite (list_fmap_compose fst fst), group_by_keys.
    eapply StronglySorted_sublist.
    + apply fmap_sublist, remove_dups_sublist.
    + rewrite <- list_fmap_compose. by apply join_customers_orders_ids.
  - by apply per_customer_ids, StronglySorted_lt_NoDup.
Qed.

(** Every customer that has an order has a row in the per-customer
    aggregate. *)
Lemma per_customer_complete agg cs os c o :
  c ∈ cs -> o ∈ os -> order_customer_id o = customer_id c ->
  exists v, (customer_id c, customer_name c, v) ∈ per_customer agg cs os.
Proof.
  intros Hc Ho Hid. eexists. unfold per_customer. apply list_elem_of_fmap.
  eexists (_, _). split; [reflexivity|]. apply elem_of_group_by. split; [reflexivity|].
  exists (c, o). split; [|done]. by apply elem_of_join_customers_orders.
Qed.

(** Insertion sort is stable: of rows with equal sort key, the one that
    came first stays first. Here the rows arrive in ascending order of a
    second key [id]. *)
Lemma insert_sorted_stable {A} (key id : A -> Z) x l :
  Forall (fun y => id x < id y) l ->
  StronglySorted (fun a b => key b < key a \/ (key b = key a /\ id a < id b)) l ->
  StronglySorted (fun a b => key b < key a \/ (key b = key a /\ id a < id b))
                 (insert_sorted (desc key) x l).
Proof.
  intros Hid Hs. induction Hs as [|y l Hs IH Hy]; cbn [insert_sorted].
  - by repeat constructor.
  - apply Forall_cons in Hid as [Hxy Hid]. unfold desc at 1.
    destruct (Z.leb_spec (key y) (key x)) as [Hle|Hlt].
    + constructor; [by constructor|]. constructor; [lia|].
      apply Forall_forall. intros z Hz.
      pose proof (proj1 (Forall_forall _ _) Hy z Hz).
      pose proof (proj1 (Forall_forall _ _) Hid z Hz). simpl in *. lia.
    + constructor; [by apply IH|].
      apply Forall_forall. intros z Hz.
      rewrite insert_sorted_perm in Hz. apply elem_of_cons in Hz as [->|Hz]; [lia|].
      by apply (proj1 (Forall_forall _ _) Hy).
Qed.

Lemma insertion_sort_stable {A} (key id : A -> Z) l :
  StronglySorted (fun a b => id a < id b) l ->
  StronglySorted (fun a b => key b < key a \/ (key b = key a /\ id a < id b))
                 (insertion_sort (desc key) l).
Proof.
  induction 1 as [|x l Hs IH Hx]; [constructor|].
  change (insertion_sort (desc key) (x :: l))
    with (insert_sorted (desc key) x (insertion_sort (desc key) l)).
  apply insert_sorted_stable; [|done].
  apply Forall_forall. intros y Hy. rewrite insertion_sort_perm in Hy.
  by apply (proj1 (Forall_forall _ _) Hx).
Qed.

Lemma StronglySorted_fmap_inv {A B} (f : A -> B) (R : relation B) l :
  StronglySorted R (f <$> l) -> StronglySorted (fun a b => R (f a) (f b)) l.
Proof.
  induction l as [|x l IH]; intros Hs; [constructor|].
  rewrite fmap_cons in Hs. apply StronglySorted_cons in Hs as [Hx Hs].
  constructor; [by apply IH|]. exact (proj1 (Forall_fmap _ _ _) Hx).
Qed.

(** ** The store a run builds *)

(** The store after the inserts of a dataset into freshly created tables. *)
Definition store_of (d : Dataset) : Store :=
  mkStore (Some (customers d)) (Some products) (Some (orders d))
          (Some (insert_items (order_items d) [])).

(** ** Query 1: top customers by total spending *)

(** An engine whose ORDER BY is a stable sort: rows that compare equal
    stay in the order in which they reach the sorter, which is what SQLite
    returns. *)
Definition stable_order_by (E : SqlEngine) : Prop :=
  forall A (le : A -> A -> bool) (l : list A), @order_by E A le l = insertion_sort le l.

(** [r1] comes before [r2] in the result: it spent more, or as much with
    the smaller customer identifier. *)
Definition spends_more (r1 r2 : SpendingRow) : Prop :=
  B64.real_key (total_spent r2) < B64.real_key (total_spent r1)
  \/ (B64.real_key (total_spent r2) = B64.real_key (total_spent r1)
      /\ sp_customer_id r1 < sp_customer_id r2).

(** C4: over a Customers table in key order and with a stable ORDER BY,
    the query returns the first 10 (or all, when there are fewer) of the
    customers that have an order, each once with the sum over its orders, in
    descending order of total spent, rows of equal total in ascending order
    of customer identifier. *)
Theorem top_customers_sorted_limited `{E : SqlEngine} cs ps os ois :
  stable_order_by E ->
  StronglySorted Z.lt (customer_id <$> cs) ->
  exists rows rest,
    query_top_customers (mkStore (Some cs) ps (Some os) ois) = Ok rows
    /\ (length rows <= 10)%nat
    /\ (rest <> [] -> length rows = 10%nat)
    /\ StronglySorted spends_more (rows ++ rest)
    /\ NoDup (sp_customer_id <$> rows ++ rest)
    /\ (forall r, r ∈ rows ++ rest ->
          (exists c o, c ∈ cs /\ o ∈ os /\ customer_id c = sp_customer_id r
                       /\ customer_name c = sp_name r
                       /\ order_customer_id o = sp_customer_id r)
          /\ total_spent r
             = sum_real (total_amount <$>
                           filter (fun o => order_customer_id o = sp_customer_id r) os))
    /\ (forall c o, c ∈ cs -> o ∈ os -> order_customer_id o = customer_id c ->
          exists r, r ∈ rows ++ rest /\ sp_customer_id r = customer_id c).
Proof.
  intros Hstable Hkeys.
  pose proof (StronglySorted_lt_NoDup _ Hkeys) as Hnd.
  set (sorted := order_by (desc (fun r => B64.real_key (total_spent r)))
                          (CustomerSpending cs os)).
  exists (take 10 sorted), (drop 10 sorted). rewrite take_drop.
  assert (sp_customer_id <$> CustomerSpending cs os
          = (fun r : Z * string * float => r.1.1) <$> per_customer sum_real cs os)
    as Hids.
  { unfold CustomerSpending. rewrite <- list_fmap_compose.
    apply list_fmap_ext. by intros i [[id name] v] _. }
  assert (forall r, r ∈ sorted <-> r ∈ CustomerSpending cs os) as Hin
    by (intros r; apply elem_of_order_by).
  split; [reflexivity|]. split; [rewrite length_take; lia|].
  split; [apply take_full_when_cut|]. split; [|split; [|split]].
  - unfold sorted. rewrite Hstable.
    apply (insertion_sort_stable (fun r => B64.real_key (total_spent r)) sp_customer_id).
    apply (StronglySorted_fmap_inv sp_customer_id Z.lt). rewrite Hids.
    by apply per_customer_ascending.
  - unfold sorted. rewrite order_by_perm, Hids. by apply per_customer_ids.
  - intros r Hr. apply Hin in Hr. unfold CustomerSpending in Hr.
    apply list_elem_of_fmap in Hr as ([[id name] v] & -> & Hr). simpl. split.
    + apply elem_of_per_customer in Hr as (c & o & Hc & Ho & <- & <- & Hoid).
      by exists c, o.
    + by apply (per_customer_spec sum_real cs os id name v).
  - intros c o Hc Ho Hid.
    destruct (per_customer_complete sum_real cs os c o Hc Ho Hid) as [v Hv].
    exists (mkSpendingRow (customer_id c) (customer_name c) v). split; [|done].
    apply Hin. unfold CustomerSpending. apply list_elem_of_fmap.
    by exists (customer_id c, customer_name c, v).
Qed.

Definition two_customers : list Customer :=
  [mkCustomer 1 "Customer 1" "customer1@example.com" "2021-01-01";
   mkCustomer 2 "Customer 2" "customer2@example.com" "2021-01-02"].

(** Two customers whose orders add up to the same total. *)
Definition tied_orders : list Order :=
  [mkOrder 1 2 "2021-03-01" (B64.decimal2 2500);
   mkOrder 2 1 "2021-03-02" (B64.decimal2 5000);
   mkOrder 3 2 "2021-04-01" (B64.decimal2 2500)].

Lemma top_customers_sorted_limited_witness :
  stable_order_by stable_engine
  /\ StronglySorted Z.lt (customer_id <$> two_customers)
  /\ exists rows rest,
      @query_top_customers stable_engine
        (mkStore (Some two_customers) None (Some tied_orders) None) = Ok rows
      /\ (length rows <= 10)%nat
      /\ (rest <> [] -> length rows = 10%nat)
      /\ StronglySorted spends_more (rows ++ rest)
      /\ NoDup (sp_customer_id <$> rows ++ rest)
      /\ (forall r, r ∈ rows ++ rest ->
            (exists c o, c ∈ two_customers /\ o ∈ tied_orders
                         /\ customer_id c = sp_customer_id r
                         /\ customer_name c = sp_name r
                         /\ order_customer_id o = sp_customer_id r)
            /\ total_spent r
               = @sum_real stable_engine
                   (total_amount <$>
                      filter (fun o => order_customer_id o = sp_customer_id r)
                             tied_orders))
      /\ (forall c o, c ∈ two_customers -> o ∈ tied_orders ->
            order_customer_id o = customer_id c ->
            exists r, r ∈ rows ++ rest /\ sp_customer_id r = customer_id c).
Proof.
  assert (stable_order_by stable_engine) as Hstable by (intros A le l; reflexivity).
  assert (StronglySorted Z.lt (customer_id <$> two_customers)) as Hkeys
    by (repeat constructor).
  split; [exact Hstable|]. split; [exact Hkeys|].
  exact (@top_customers_sorted_limited stable_engine two_customers None tied_orders None
           Hstable Hkeys).
Defined.

(** ** Query 4: segmentation by average order value *)

(** How many rows have a key strictly above [v]. *)
Definition count_above {A} (key : A -> Z) (v : Z) (l : list A) : Z :=
  Z.of_nat (length (filter (fun x => v < key x) l)).

Lemma count_above_app {A} (key : A -> Z) v (l1 l2 : list A) :
  count_above key v (l1 ++ l2) = count_above key v l1 + count_above key v l2.
Proof. unfold count_above. rewrite filter_app, length_app. lia. Qed.

Lemma count_above_perm {A} (key : A -> Z) v (l1 l2 : list A) :
  l1 ≡ₚ l2 -> count_above key v l1 = count_above key v l2.
Proof. intros Hp. unfold count_above. by rewrite Hp. Qed.

Lemma count_above_none {A} (key : A -> Z) v (l : list A) :
  Forall (fun x => key x <= v) l -> count_above key v l = 0.
Proof.
  intros Hall. unfold count_above. rewrite filter_none; [done|].
  eapply Forall_impl; [exact Hall|]. intros x. simpl. lia.
Qed.

Lemma count_above_all {A} (key : A -> Z) v (l : list A) :
  Forall (fun x => v < key x) l -> count_above key v l = Z.of_nat (length l).
Proof. intros Hall. unfold count_above. by rewrite filter_all. Qed.

Lemma assign_ranks_fst {A} (key : A -> Z) rows : forall prev pos,
  (assign_ranks key prev pos rows).*1 = rows.
Proof. induction rows as [|r rows IH]; intros; simpl; [done|]. by rewrite IH. Qed.

(** Over rows in descending key order, the rank RANK() assigns is one more
    than the number of rows with a strictly greater key. *)
Lemma assign_ranks_spec {A} (key : A -> Z) rest : forall pre prev,
  StronglySorted (fun x y => key y <= key x) (pre ++ rest) ->
  prev = (fun x => (key x, 1 + count_above key (key x) pre)) <$> last pre ->
  forall r rk,
    (r, rk) ∈ assign_ranks key prev (1 + Z.of_nat (length pre)) rest ->
    rk = 1 + count_above key (key r) (pre ++ rest).
Proof.
  induction rest as [|x rest IH]; intros pre prev Hs Hprev r rk Hin; simpl in Hin.
  - by apply elem_of_nil in Hin.
  - pose proof Hs as Hs'. apply StronglySorted_app in Hs' as (Hcross & Hpre & Hxrest).
    apply StronglySorted_inv in Hxrest as [Hrest Hx].
    assert (count_above key (key x) (x :: rest) = 0) as Hzero.
    { apply count_above_none. constructor; [lia|done]. }
    set (rkx := match prev with
                | Some (k, rk') => if k =? key x then rk' else 1 + Z.of_nat (length pre)
                | None => 1 + Z.of_nat (length pre)
                end) in *.
    assert (rkx = 1 + count_above key (key x) pre) as Hrkx.
    { unfold rkx. rewrite Hprev. destruct (last pre) as [y|] eqn:Hlast; simpl.
      - destruct (Z.eqb_spec (key y) (key x)) as [Heq|Hne]; [by rewrite Heq|].
        f_equal. symmetry. apply count_above_all.
        apply Forall_forall. intros z Hz.
        assert (key x <= key y) as Hxy.
        { apply Hcross; [|left]. apply last_Some in Hlast as [pre' ->].
          apply elem_of_app. right. left. }
        assert (key y <= key z) as Hyz.
        { apply last_Some in Hlast as [pre' ->].
          apply elem_of_app in Hz as [Hz|Hz].
          - apply StronglySorted_app in Hpre as (Hc & _ & _). apply Hc; [done|left].
          - apply list_elem_of_singleton in Hz. subst z. lia. }
        lia.
      - apply last_None in Hlast. subst pre. done. }
    apply elem_of_cons in Hin as [Heq|Hin].
    + injection Heq as -> ->. rewrite Hrkx, count_above_app, Hzero. lia.
    + replace (pre ++ x :: rest) with ((pre ++ [x]) ++ rest) in *
        by (by rewrite <- app_assoc).
      apply (IH (pre ++ [x]) (Some (key x, rkx)) Hs).
      * rewrite last_snoc. simpl. rewrite Hrkx, count_above_app.
        rewrite (count_above_none key (key x) [x]) by (repeat constructor; lia).
        do 2 f_equal. lia.
      * rewrite length_app. simpl.
        replace (1 + Z.of_nat (length pre + 1)) with (1 + Z.of_nat (length pre) + 1) by lia.
        exact Hin.
Qed.

Lemma elem_of_ranked_customers `{SqlEngine} cs os r :
  r ∈ ranked_customers cs os ->
  (sg_customer_id r, sg_name r, avg_order_value r) ∈ CustomerOrders cs os
  /\ spending_rank r
     = 1 + count_above (fun x : Z * string * float => B64.real_key x.2)
                       (B64.real_key (avg_order_value r)) (CustomerOrders cs os).
Proof.
  unfold ranked_customers. intros Hr.
  apply list_elem_of_fmap in Hr as ([[[id name] avg] rk] & -> & Hin). simpl.
  split.
  - eapply elem_of_order_by.
    rewrite <- (assign_ranks_fst (fun x : Z * string * float => B64.real_key x.2)
                  _ None 1).
    apply list_elem_of_fmap. by exists (id, name, avg, rk).
  - rewrite <- (count_above_perm _ _ _ _
                  (order_by_perm _ (desc (fun x : Z * string * float => B64.real_key x.2))
                                 (CustomerOrders cs os))).
    apply (assign_ranks_spec (fun x : Z * string * float => B64.real_key x.2)
             _ [] None) in Hin; [done| |done].
    apply (order_by_desc_sorted (fun x : Z * string * float => B64.real_key x.2)).
Qed.




(** ** Inserted line items and their keys *)

Definition item_row (k : Z) (it : Item) : OrderItemRow :=
  mkOrderItemRow k (item_order_id it) (item_product_id it) (quantity it) (unit_price it).

Lemma max_upper (l : list Z) n :
  0 <= n -> Forall (fun x => x <= n) l -> foldr Z.max 0 l <= n.
Proof. intros Hn. induction 1; simpl; lia. Qed.

Lemma max_lower (l : list Z) x : x ∈ l -> x <= foldr Z.max 0 l.
Proof.
  induction l as [|y l IH]; intros Hin; [by apply elem_of_nil in Hin|].
  apply elem_of_cons in Hin as [->|Hin]; simpl; [lia|]. specialize (IH Hin). lia.
Qed.

Lemma max_seqZ n : foldr Z.max 0 (seqZ 1 (Z.of_nat n)) = Z.of_nat n.
Proof.
  apply Z.le_antisymm.
  - apply max_upper; [lia|]. apply Forall_forall. intros x Hx.
    apply elem_of_seqZ in Hx. lia.
  - destruct n as [|n]; [done|]. apply max_lower, elem_of_seqZ. lia.
Qed.

(** AUTOINCREMENT numbers the rows 1, 2, 3, ... in insertion order. *)
Lemma insert_items_spec its : forall rows,
  order_item_id <$> rows = seqZ 1 (Z.of_nat (length rows)) ->
  insert_items its rows
  = rows ++ imap (fun i it => item_row (Z.of_nat (length rows + i) + 1) it) its.
Proof.
  unfold insert_items.
  induction its as [|it its IH]; intros rows Hids; simpl.
  - by rewrite app_nil_r.
  - rewrite IH.
    + unfold insert_item. rewrite Hids, max_seqZ, <- app_assoc. simpl.
      f_equal. f_equal.
      * unfold item_row. f_equal. lia.
      * apply imap_ext. intros i x _. simpl. rewrite length_app. simpl.
        f_equal. lia.
    + unfold insert_item. rewrite fmap_app, length_app, Hids, max_seqZ. simpl.
      replace (Z.of_nat (length rows + 1)) with (Z.of_nat (S (length rows))) by lia.
      by rewrite seqZ_S, Z.add_comm.
Qed.

Lemma insert_items_fresh its :
  insert_items its [] = imap (fun i it => item_row (Z.of_nat i + 1) it) its.
Proof. by rewrite insert_items_spec. Qed.

Lemma elem_of_insert_items its oi :
  oi ∈ insert_items its [] ->
  exists i it, its !! i = Some it /\ oi = item_row (Z.of_nat i + 1) it.
Proof.
  rewrite insert_items_fresh. intros Hin.
  apply elem_of_lookup_imap_1 in Hin as (i & it & -> & Hit). by exists i, it.
Qed.

(** ** C1, C2, C10: invariants of the generated dataset *)

(** C2: every order names an existing customer, every line item an
    existing order and an existing product, in the store the generated lists
    are inserted into. *)
Theorem generated_referential_integrity nc no rs :
  0 < nc ->
  exists d rs',
    generate nc no rs = Ok (d, rs')
    /\ exists cs ps os ois,
         store_of d = mkStore (Some cs) (Some ps) (Some os) (Some ois)
         /\ (forall o, o ∈ os ->
               exists c, c ∈ cs /\ customer_id c = order_customer_id o)
         /\ (forall oi, oi ∈ ois ->
               (exists o, o ∈ os /\ order_id o = oi_order_id oi)
               /\ (exists p, p ∈ ps /\ product_id p = oi_product_id oi)).
Proof.
  intros Hnc.
  destruct (gen_wp_elim _ _ _ (generate_wp nc no rs Hnc))
    as (d & rs' & Hgen & Hids & _ & [g Hg] & _).
  exists d, rs'. split; [done|].
  exists (customers d), products, (orders d), (insert_items (order_items d) []).
  split; [done|]. split.
  - intros o Ho. destruct (grouped_order _ _ _ _ _ Hg Ho) as [items Hin].
    destruct Hg as (_ & _ & Hall & _).
    pose proof (proj1 (Forall_forall _ _) Hall _ Hin) as (Hcid & _). simpl in Hcid.
    assert (order_customer_id o ∈ customer_id <$> customers d) as Hc.
    { rewrite Hids. apply elem_of_range. lia. }
    apply list_elem_of_fmap in Hc as (c & Hc & Hcin). by exists c.
  - intros oi Hoi. apply elem_of_insert_items in Hoi as (i & it & Hit & ->). simpl.
    apply list_elem_of_lookup_2 in Hit.
    destruct (grouped_item _ _ _ _ _ Hg Hit) as (o & items & Hin & Hitin & Ho).
    destruct Hg as (_ & _ & Hall & _).
    pose proof (proj1 (Forall_forall _ _) Hall _ Hin) as (_ & _ & _ & Hwf & _).
    pose proof (proj1 (Forall_forall _ _) Hwf _ Hitin) as (Hoid & _ & p & Hp & Hpid & _).
    split; [by exists o|by exists p].
Qed.

Definition sample_source : RandomState :=
  mkRandomState (fun n => (N.of_nat n * 7919 + 13)%N) 0.

Lemma generated_referential_integrity_witness :
  0 < 3
  /\ exists d rs',
       generate 3 4 sample_source = Ok (d, rs')
       /\ exists cs ps os ois,
            store_of d = mkStore (Some cs) (Some ps) (Some os) (Some ois)
            /\ (forall o, o ∈ os ->
                  exists c, c ∈ cs /\ customer_id c = order_customer_id o)
            /\ (forall oi, oi ∈ ois ->
                  (exists o, o ∈ os /\ order_id o = oi_order_id oi)
                  /\ (exists p, p ∈ ps /\ product_id p = oi_product_id oi)).
Proof.
  split; [lia|]. apply (generated_referential_integrity 3 4 sample_source). lia.
Defined.

(** The line items of an order: the rows of [order_items] that carry its
    identifier. *)
Definition items_of (o : Order) (its : list Item) : list Item :=
  filter (fun it => item_order_id it = order_id o) its.

(** C1: the stored total is the double-arithmetic sum of price times
    quantity rounded by [round(_, 2)], and that is the exact sum of quantity
    times unit price rounded to the nearest cent. *)
Theorem generated_total_amount nc no rs :
  0 < nc ->
  exists d rs',
    generate nc no rs = Ok (d, rs')
    /\ forall o, o ∈ orders d ->
         total_amount o = B64.py_round2 (float_total (items_of o (order_items d)))
         /\ total_amount o
            = B64.decimal2 (B64.round_cents (exact_total (items_of o (order_items d)))).
Proof.
  intros Hnc.
  destruct (gen_wp_elim _ _ _ (generate_wp nc no rs Hnc))
    as (d & rs' & Hgen & _ & _ & [g Hg] & _).
  exists d, rs'. split; [done|]. intros o Ho.
  destruct (grouped_order _ _ _ _ _ Hg Ho) as [items Hin].
  unfold items_of. rewrite (grouped_items_of _ _ _ _ _ _ Hg Hin).
  destruct Hg as (_ & _ & Hall & _).
  pose proof (proj1 (Forall_forall _ _) Hall _ Hin) as Hwf.
  destruct (order_total _ _ Hwf) as (Htot & _ & _).
  destruct Hwf as (_ & _ & Hlen & Hitems & Hround). simpl in *.
  split; [done|]. rewrite Htot. f_equal. symmetry.
  eapply exact_total_cents; [done|lia].
Qed.

Lemma generated_total_amount_witness :
  0 < 3
  /\ exists d rs',
       generate 3 4 sample_source = Ok (d, rs')
       /\ forall o, o ∈ orders d ->
            total_amount o = B64.py_round2 (float_total (items_of o (order_items d)))
            /\ total_amount o
               = B64.decimal2 (B64.round_cents (exact_total (items_of o (order_items d)))).
Proof.
  split; [lia|]. apply (generated_total_amount 3 4 sample_source). lia.
Defined.

Lemma products_lookup p :
  p ∈ products -> products !! Z.to_nat (product_id p - 1) = Some p.
Proof.
  intros Hp. unfold products in Hp.
  repeat (apply elem_of_cons in Hp as [->|Hp]; [reflexivity|]).
  by apply elem_of_nil in Hp.
Qed.

Lemma products_id_inj p p' :
  p ∈ products -> p' ∈ products -> product_id p = product_id p' -> p = p'.
Proof.
  intros Hp Hp' Hid. apply products_lookup in Hp, Hp'. rewrite Hid in Hp. congruence.
Qed.

Lemma is_positive_ltb x : B64.is_positive x = true -> B64.ltb B64.zero x = true.
Proof. by destruct x as [| [] | | [] m e]. Qed.

(** C10: a line item carries the catalog price of the product it names, and
    every order total is strictly positive. *)
Theorem generated_price_snapshot nc no rs :
  0 < nc ->
  exists d rs',
    generate nc no rs = Ok (d, rs')
    /\ (forall it p, it ∈ order_items d -> p ∈ products ->
          product_id p = item_product_id it -> unit_price it = price p)
    /\ (forall o, o ∈ orders d -> B64.ltb B64.zero (total_amount o) = true).
Proof.
  intros Hnc.
  destruct (gen_wp_elim _ _ _ (generate_wp nc no rs Hnc))
    as (d & rs' & Hgen & _ & _ & [g Hg] & _).
  exists d, rs'. split; [done|]. split.
  - intros it p Hit Hp Hid.
    destruct (grouped_item _ _ _ _ _ Hg Hit) as (o & items & Hin & Hitin & Ho).
    destruct Hg as (_ & _ & Hall & _).
    pose proof (proj1 (Forall_forall _ _) Hall _ Hin) as (_ & _ & _ & Hwf & _).
    pose proof (proj1 (Forall_forall _ _) Hwf _ Hitin) as (_ & _ & p' & Hp' & Hpid & Hpr).
    rewrite <- Hpr. f_equal. apply products_id_inj; [done..|congruence].
  - intros o Ho. destruct (grouped_order _ _ _ _ _ Hg Ho) as [items Hin].
    destruct Hg as (_ & _ & Hall & _).
    pose proof (proj1 (Forall_forall _ _) Hall _ Hin) as Hwf.
    destruct (order_total _ _ Hwf) as (_ & _ & Hpos). by apply is_positive_ltb.
Qed.

Lemma generated_price_snapshot_witness :
  0 < 3
  /\ exists d rs',
       generate 3 4 sample_source = Ok (d, rs')
       /\ (forall it p, it ∈ order_items d -> p ∈ products ->
             product_id p = item_product_id it -> unit_price it = price p)
       /\ (forall o, o ∈ orders d -> B64.ltb B64.zero (total_amount o) = true).
Proof.
  split; [lia|]. apply (generated_price_snapshot 3 4 sample_source). lia.
Defined.

(** ** Running the script *)

Lemma script_bind_done {A B} (m : Script A) (k : A -> Script B) w a w' :
  m w = Done a w' -> (m ≫= k) w = k a w'.
Proof. unfold mbind, script_bind. by intros ->. Qed.

Lemma script_bind_failed {A B} (m : Script A) (k : A -> Script B) w e w' :
  m w = Failed e w' -> (m ≫= k) w = Failed e w'.
Proof. unfold mbind, script_bind. by intros ->. Qed.

Lemma execute_ok stmt w db' :
  stmt (db w) = Ok db' -> execute stmt w = Done () (mkWorld (fs w) db' (rng w)).
Proof. unfold execute. by intros ->. Qed.

Lemma draw_ok {A} (g : Gen A) w a rs :
  g (rng w) = Ok (a, rs) -> draw g w = Done a (mkWorld (fs w) (db w) rs).
Proof. unfold draw. by intros ->. Qed.

Definition empty_store : Store := mkStore (Some []) (Some []) (Some []) (Some []).

(** Whatever the store held, after the drops and the creates it holds four
    empty tables. *)
Lemma reset_store w :
  (drop_tables;; create_tables) w = Done () (mkWorld (fs w) empty_store (rng w)).
Proof. reflexivity. Qed.

Lemma insert_by_key_last {R} (key : R -> Z) row rows :
  Forall (fun r => key r < key row) rows ->
  insert_by_key key row rows = rows ++ [row].
Proof.
  induction 1 as [|r rows Hr _ IH]; [done|]. cbn [insert_by_key].
  destruct (Z.ltb_spec (key row) (key r)); [lia|]. by rewrite IH.
Qed.

(** Rows whose keys ascend beyond those of the table are appended. *)
Lemma insert_many_ok {R} (key : R -> Z) new : forall rows,
  StronglySorted Z.lt (key <$> (rows ++ new)) ->
  Forall (fun r => int64 (key r) = true) new ->
  insert_many key new rows = Ok (rows ++ new).
Proof.
  induction new as [|r new IH]; intros rows Hs Hall; cbn [insert_many].
  - by rewrite app_nil_r.
  - apply Forall_cons in Hall as [Hr Hall]. unfold insert_keyed. rewrite Hr.
    cbn [negb]. rewrite fmap_app, fmap_cons in Hs.
    pose proof Hs as Hs'. apply StronglySorted_app in Hs' as (Hcross & _ & _).
    assert (Forall (fun x => key x < key r) rows) as Hlt.
    { apply Forall_forall. intros x Hx. apply Hcross; [|left].
      apply list_elem_of_fmap. by exists x. }
    rewrite bool_decide_eq_false_2.
    + rewrite (insert_by_key_last key r rows Hlt).
      change (insert_many key new (rows ++ [r]) = Ok (rows ++ r :: new)).
      rewrite IH; [by rewrite <- app_assoc| |done].
      rewrite <- app_assoc. cbn [app]. by rewrite fmap_app, fmap_cons.
    + intros Hin. apply list_elem_of_fmap in Hin as (x & Hx & Hxin).
      pose proof (proj1 (Forall_forall _ _) Hlt x Hxin) as Hxr. cbv beta in Hxr. lia.
Qed.

Lemma StronglySorted_seqZ a n : StronglySorted Z.lt (seqZ a n).
Proof.
  destruct (decide (0 <= n)) as [Hn|Hn]; [|rewrite seqZ_nil by lia; constructor].
  revert a. apply (natlike_ind (fun n => forall a, StronglySorted Z.lt (seqZ a n)));
    [constructor| |done].
  clear n Hn. intros n Hn IH a. rewrite seqZ_cons by lia.
  constructor; [replace (Z.pred (Z.succ n)) with n by lia; apply IH|].
  apply Forall_forall. intros x Hx. apply elem_of_seqZ in Hx. lia.
Qed.

(** Identifiers counted from 1 up to a bound of the run fit an SQLite
    INTEGER. *)
Lemma seqZ_int64 {R} (key : R -> Z) (l : list R) n :
  key <$> l = seqZ 1 n -> n < 2 ^ 62 -> Forall (fun r => int64 (key r) = true) l.
Proof.
  intros Hids Hn. apply Forall_forall. intros r Hr.
  assert (key r ∈ seqZ 1 n) as Hin by (rewrite <- Hids; apply list_elem_of_fmap; eauto).
  apply elem_of_seqZ in Hin. unfold int64.
  destruct (Z.leb_spec (- 2 ^ 63) (key r)); [|lia].
  destruct (Z.ltb_spec (key r) (2 ^ 63)); [done|lia].
Qed.

Lemma generate_split nc no rs cs rs1 os its rs2 :
  gen_customers nc rs = Ok (cs, rs1) ->
  gen_orders nc no rs1 = Ok ((os, its), rs2) ->
  generate nc no rs = Ok (mkDataset cs os its, rs2).
Proof.
  intros Hcs Hos. unfold generate, mbind, gen_bind. by rewrite Hcs, Hos.
Qed.

(** The inserts never fail: identifiers are fresh, and the store then
    holds exactly the generated lists. *)
Lemma insert_synthetic_data_outcome w :
  db w = empty_store ->
  exists d rs',
    generate num_customers num_orders (rng w) = Ok (d, rs')
    /\ insert_synthetic_data w = Done () (mkWorld (fs w) (store_of d) rs').
Proof.
  intros Hdb.
  destruct (gen_wp_elim _ _ _ (gen_customers_wp num_customers (rng w)))
    as (cs & rs1 & Hcs & Hids & _).
  destruct (gen_wp_elim _ _ _ (gen_orders_wp num_customers num_orders rs1 ltac:(done)))
    as ([os its] & rs2 & Hos & [g Hg] & Hlen & _). simpl in Hg, Hlen.
  exists (mkDataset cs os its), rs2. split; [by eapply generate_split|].
  unfold insert_synthetic_data.
  rewrite (script_bind_done _ _ _ _ _ (draw_ok _ _ _ _ Hcs)). cbv beta.
  erewrite script_bind_done; cycle 1.
  { apply execute_ok. simpl. rewrite Hdb. unfold insert_customers. simpl.
    rewrite insert_many_ok; [done| |apply (seqZ_int64 _ _ _ Hids); reflexivity].
    simpl. rewrite Hids. apply StronglySorted_seqZ. }
  cbv beta. erewrite script_bind_done; cycle 1.
  { apply execute_ok. reflexivity. }
  cbv beta. erewrite script_bind_done; cycle 1.
  { apply draw_ok. simpl. exact Hos. }
  cbv beta iota. erewrite script_bind_done; cycle 1.
  { apply execute_ok. simpl. unfold insert_orders. simpl.
    destruct Hg as (_ & _ & _ & Hseq).
    rewrite insert_many_ok; [done| |].
    - simpl. rewrite Hseq. apply StronglySorted_seqZ.
    - apply (seqZ_int64 _ _ _ Hseq). rewrite Hlen. reflexivity. }
  cbv beta.
  erewrite execute_ok; [|reflexivity]. done.
Qed.

(** ** Query 3: best-selling products *)

Definition Zsum (l : list Z) : Z := foldr Z.add 0 l.

Lemma sum_int_from acc l :
  0 <= acc -> Forall (fun x => 0 <= x <= 3) l ->
  acc + 3 * Z.of_nat (length l) < 2 ^ 63 ->
  foldl (fun (a : result Z) x =>
           s ← a;
           let s' := s + x in
           if (- 2 ^ 63 <=? s') && (s' <? 2 ^ 63) then Ok s' else Raise OverflowError)
        (Ok acc) l
  = Ok (acc + Zsum l).
Proof.
  intros Hacc Hall. revert acc Hacc.
  induction Hall as [|x l Hx _ IH]; intros acc Hacc Hlen; simpl.
  - by rewrite Z.add_0_r.
  - simpl in Hlen.
    destruct (Z.leb_spec (- 2 ^ 63) (acc + x)); [|lia].
    destruct (Z.ltb_spec (acc + x) (2 ^ 63)); [|lia]. simpl.
    rewrite IH; [f_equal; lia|lia|lia].
Qed.

Lemma sum_int_ok l :
  Forall (fun x => 0 <= x <= 3) l -> 3 * Z.of_nat (length l) < 2 ^ 63 ->
  sum_int l = Ok (Zsum l).
Proof. intros Hall Hlen. unfold sum_int. by rewrite sum_int_from. Qed.

Lemma mapM_ok {A B} (f : A -> result B) (g : A -> B) l :
  (forall x, x ∈ l -> f x = Ok (g x)) -> mapM f l = Ok (g <$> l).
Proof.
  induction l as [|x l IH]; intros Hf; [done|]. simpl.
  rewrite Hf by left. simpl. rewrite IH; [done|]. intros y Hy. apply Hf. by right.
Qed.

Lemma products_name_inj p p' :
  p ∈ products -> p' ∈ products ->
  (product_name p, category p) = (product_name p', category p') -> p = p'.
Proof.
  intros Hp Hp' Heq. injection Heq as Hname _. unfold products in Hp, Hp'.
  repeat (apply elem_of_cons in Hp as [->|Hp];
          [repeat (apply elem_of_cons in Hp' as [->|Hp']; [done|]);
           by apply elem_of_nil in Hp'|]).
  by apply elem_of_nil in Hp.
Qed.

Lemma products_filter_id p :
  p ∈ products ->
  filter (fun p' => product_id p = product_id p') products = [p].
Proof.
  intros Hp. unfold products in Hp.
  repeat (apply elem_of_cons in Hp as [->|Hp]; [reflexivity|]).
  by apply elem_of_nil in Hp.
Qed.

(** A row of OrderItems names a catalog product and has a quantity of 1 to
    3. *)
Definition row_ok (oi : OrderItemRow) : Prop :=
  1 <= oi_quantity oi <= 3
  /\ exists p, p ∈ products /\ product_id p = oi_product_id oi.

Lemma join_items_products_cons oi p ois :
  p ∈ products -> product_id p = oi_product_id oi ->
  join_items_products (oi :: ois) products
  = (oi, p) :: join_items_products ois products.
Proof.
  intros Hp Hid. unfold join_items_products. simpl.
  rewrite <- Hid, (products_filter_id p Hp). done.
Qed.

(** Grouping the join by product name and category selects the line items
    of one product. *)
Lemma join_group_rows ois p :
  Forall row_ok ois -> p ∈ products ->
  fst <$> filter (fun op : OrderItemRow * Product =>
                    (product_name op.2, category op.2) = (product_name p, category p))
                 (join_items_products ois products)
  = filter (fun oi => oi_product_id oi = product_id p) ois.
Proof.
  intros Hall Hp. induction Hall as [|oi ois (_ & q & Hq & Hqid) _ IH]; [done|].
  rewrite (join_items_products_cons oi q ois Hq Hqid).
  destruct (decide (product_id q = product_id p)) as [Heq|Hne'].
  - apply products_id_inj in Heq; [|done..]. subst q.
    rewrite filter_cons_True by done. rewrite (filter_cons_True _ oi) by done.
    by rewrite fmap_cons, IH.
  - assert (q <> p) as Hne by (by intros ->).
    rewrite filter_cons_False.
    + rewrite (filter_cons_False _ oi); [done|].
      intros Hid. apply Hne. apply products_id_inj; [done..|congruence].
    + simpl. intros Heq. apply Hne. by apply products_name_inj.
Qed.

Lemma elem_of_join_items_products ois oi p :
  Forall row_ok ois -> (oi, p) ∈ join_items_products ois products ->
  oi ∈ ois /\ p ∈ products /\ product_id p = oi_product_id oi.
Proof.
  intros _. unfold join_items_products. intros Hin.
  apply list_elem_of_bind in Hin as (oi' & Hin & Hoi).
  apply list_elem_of_bind in Hin as (p' & Hin & Hp').
  apply list_elem_of_singleton in Hin. injection Hin as -> ->.
  apply list_elem_of_filter in Hp' as [Hid Hp']. done.
Qed.

Lemma join_length (g : list (list Item)) :
  Forall (fun l => (1 <= length l <= 5)%nat) g ->
  (length g <= length (mjoin g) <= 5 * length g)%nat.
Proof.
  induction 1 as [|l g Hl _ IH]; [simpl; lia|].
  change (mjoin (l :: g)) with (l ++ mjoin g). rewrite length_app. simpl. lia.
Qed.

(** Between one and five line items per order. *)
Lemma grouped_counts nc os its g :
  grouped nc os its g -> (length os <= length its <= 5 * length os)%nat.
Proof.
  intros (-> & -> & Hall & _). rewrite length_fmap.
  rewrite <- (length_fmap snd g). apply join_length, Forall_fmap.
  eapply Forall_impl; [exact Hall|]. by intros [o items] (_ & _ & Hlen & _).
Qed.

Lemma grouped_rows_ok nc os its g :
  grouped nc os its g -> Forall row_ok (insert_items its []).
Proof.
  intros Hg. apply Forall_forall. intros oi Hoi.
  apply elem_of_insert_items in Hoi as (i & it & Hit & ->).
  apply list_elem_of_lookup_2 in Hit.
  destruct (grouped_item _ _ _ _ _ Hg Hit) as (o & items & Hin & Hitin & _).
  destruct Hg as (_ & _ & Hall & _).
  pose proof (proj1 (Forall_forall _ _) Hall _ Hin) as (_ & _ & _ & Hwf & _).
  pose proof (proj1 (Forall_forall _ _) Hwf _ Hitin) as (_ & Hq & p & Hp & Hpid & _).
  split; [done|]. by exists p.
Qed.

Lemma insert_items_length its : length (insert_items its []) = length its.
Proof. by rewrite insert_items_fresh, length_imap. Qed.

Lemma join_items_products_length ois :
  Forall row_ok ois -> length (join_items_products ois products) = length ois.
Proof.
  induction 1 as [|oi ois (_ & p & Hp & Hid) _ IH]; [done|].
  rewrite (join_items_products_cons oi p ois Hp Hid). simpl. by rewrite IH.
Qed.

Lemma NoDup_take_prefix {A} n (l : list A) : NoDup l -> NoDup (take n l).
Proof.
  intros Hnd. rewrite <- (take_drop n l) in Hnd. by apply NoDup_app in Hnd as [? _].
Qed.

(** The row the query builds for one group. *)
Definition product_row (g : string * string * list (OrderItemRow * Product))
  : ProductRow :=
  mkProductRow g.1.1 g.1.2 (Zsum ((fun op => oi_quantity op.1) <$> g.2)).

Lemma query_best_products_ok `{SqlEngine} cs os ois :
  Forall row_ok ois -> 3 * Z.of_nat (length ois) < 2 ^ 63 ->
  query_best_products (mkStore cs (Some products) os (Some ois))
  = Ok (take 10 (order_by (desc total_quantity)
          (product_row <$>
             group_by (fun op : OrderItemRow * Product =>
                         (product_name op.2, category op.2))
                      (join_items_products ois products)))).
Proof.
  intros Hall Hlen. unfold query_best_products. simpl.
  rewrite (mapM_ok _ product_row); [done|].
  intros [k rs] Hg. apply elem_of_group_by in Hg as (-> & _). simpl.
  rewrite sum_int_ok; [done| |].
  - apply Forall_fmap, Forall_forall. intros [oi p] Hop.
    apply list_elem_of_filter in Hop as [_ Hop].
    apply elem_of_join_items_products in Hop as (Hoi & _); [|done].
    pose proof (proj1 (Forall_forall _ _) Hall _ Hoi) as [Hq _]. simpl. lia.
  - rewrite length_fmap.
    pose proof (length_filter (fun op : OrderItemRow * Product =>
                  (product_name op.2, category op.2) = k)
                  (join_items_products ois products)) as Hle.
    rewrite join_items_products_length in Hle by done. lia.
Qed.

(** A line item of a catalog product is joined with that product. *)
Lemma join_items_products_complete ois oi p :
  oi ∈ ois -> p ∈ products -> oi_product_id oi = product_id p ->
  (oi, p) ∈ join_items_products ois products.
Proof.
  intros Hoi Hp Hid. unfold join_items_products.
  apply list_elem_of_bind. exists oi. split; [|done].
  apply list_elem_of_bind. exists p. split; [left|]. by apply list_elem_of_filter.
Qed.

(** The catalog has 10 products, so the join has at most 10 groups and
    LIMIT 10 drops none. *)
Lemma product_groups_length ois :
  (length (group_by (fun op : OrderItemRow * Product =>
                       (product_name op.2, category op.2))
                    (join_items_products ois products)) <= 10)%nat.
Proof.
  rewrite group_by_length.
  change 10%nat with (length ((fun p => (product_name p, category p)) <$> products)).
  apply submseteq_length, NoDup_submseteq; [apply NoDup_remove_dups|].
  intros k Hk. apply elem_of_remove_dups, list_elem_of_fmap in Hk as ([oi p] & -> & Hop).
  apply list_elem_of_fmap. exists p. split; [done|].
  unfold join_items_products in Hop.
  apply list_elem_of_bind in Hop as (oi' & Hin & _).
  apply list_elem_of_bind in Hin as (p' & Hin & Hp').
  apply list_elem_of_singleton in Hin. injection Hin as -> ->.
  by apply list_elem_of_filter in Hp' as [_ Hp'].
Qed.

(** C6: the query returns exactly one row per catalog product that was
    sold, with the sum of the quantities of its line items, in descending
    order of total quantity; these are at most 10 rows. *)
Theorem best_products_by_quantity `{SqlEngine} rs :
  exists d rs' ois rows,
    generate num_customers num_orders rs = Ok (d, rs')
    /\ OrderItems (store_of d) = Some ois
    /\ query_best_products (store_of d) = Ok rows
    /\ (length rows <= 10)%nat
    /\ StronglySorted (fun r1 r2 => total_quantity r2 <= total_quantity r1) rows
    /\ NoDup ((fun r => (pr_name r, pr_category r)) <$> rows)
    /\ (forall r, r ∈ rows ->
          exists p, p ∈ products
            /\ pr_name r = product_name p /\ pr_category r = category p
            /\ total_quantity r
               = Zsum (oi_quantity <$>
                         filter (fun oi => oi_product_id oi = product_id p) ois)
            /\ exists oi, oi ∈ ois /\ oi_product_id oi = product_id p)
    /\ (forall p oi, p ∈ products -> oi ∈ ois -> oi_product_id oi = product_id p ->
          exists r, r ∈ rows
            /\ pr_name r = product_name p /\ pr_category r = category p
            /\ total_quantity r
               = Zsum (oi_quantity <$>
                         filter (fun oi => oi_product_id oi = product_id p) ois)).
Proof.
  destruct (gen_wp_elim _ _ _ (generate_wp num_customers num_orders rs ltac:(done)))
    as (d & rs' & Hgen & _ & _ & [g Hg] & Hlen & _).
  pose proof (grouped_rows_ok _ _ _ _ Hg) as Hrows.
  pose proof (grouped_counts _ _ _ _ Hg) as Hcount.
  exists d, rs', (insert_items (order_items d) []). eexists.
  split; [done|]. split; [done|]. split.
  { unfold store_of. apply query_best_products_ok; [done|].
    rewrite insert_items_length. rewrite Hlen in Hcount.
    change (Z.to_nat num_orders) with 1000%nat in Hcount. lia. }
  set (join := join_items_products (insert_items (order_items d) []) products).
  set (key := fun op : OrderItemRow * Product => (product_name op.2, category op.2)).
  assert (forall r, r ∈ take 10 (order_by (desc total_quantity)
                                   (product_row <$> group_by key join))
                    <-> r ∈ product_row <$> group_by key join) as Hall.
  { intros r. rewrite take_ge; [apply elem_of_order_by|].
    rewrite (order_by_perm _ _ _), length_fmap. apply product_groups_length. }
  assert (forall p k rows, p ∈ products -> (k, rows) ∈ group_by key join ->
            k = (product_name p, category p) ->
            total_quantity (product_row (k, rows))
            = Zsum (oi_quantity <$>
                      filter (fun oi => oi_product_id oi = product_id p)
                             (insert_items (order_items d) []))) as Hsum.
  { intros p k rows Hp Hgrp ->. apply elem_of_group_by in Hgrp as (-> & _).
    unfold product_row. simpl. f_equal.
    rewrite <- (join_group_rows _ p Hrows Hp), <- list_fmap_compose. done. }
  split; [|split; [|split; [|split]]].
  - rewrite length_take. lia.
  - apply StronglySorted_take, (order_by_desc_sorted total_quantity).
  - rewrite fmap_take. apply NoDup_take_prefix.
    rewrite (order_by_perm _ _ _), <- list_fmap_compose.
    rewrite (list_fmap_ext _ fst (group_by key join)) by (by intros ? [[??]?]).
    apply group_by_NoDup.
  - intros r Hr. apply Hall in Hr.
    apply list_elem_of_fmap in Hr as ([k rows] & -> & Hgrp).
    pose proof Hgrp as Hgrp'.
    apply elem_of_group_by in Hgrp' as (_ & [oi p] & Hop & Hk).
    apply elem_of_join_items_products in Hop as (Hoi & Hp & Hid); [|done].
    exists p. subst k. split; [done|]. split; [done|]. split; [done|]. split.
    + by apply (Hsum p _ rows).
    + by exists oi.
  - intros p oi Hp Hoi Hid.
    set (k := (product_name p, category p)).
    assert ((k, filter (fun op => key op = k) join) ∈ group_by key join) as Hgrp.
    { apply elem_of_group_by. split; [done|]. exists (oi, p). split; [|done].
      by apply join_items_products_complete. }
    exists (product_row (k, filter (fun op => key op = k) join)).
    split; [|split; [done|split; [done|]]].
    + apply Hall, list_elem_of_fmap. by eexists.
    + by apply (Hsum p _ _ Hp Hgrp).
Qed.

(** ** Query 2: monthly sales *)

Lemma string_leb_iff a b : String.leb a b = true <-> String_as_OT.lt a b \/ a = b.
Proof.
  unfold String.leb. split.
  - intros Hle. destruct (String.compare a b) eqn:Hc; [| |done].
    + right. by apply String_as_OT.cmp_eq.
    + left. by apply String_as_OT.cmp_lt.
  - intros [Hlt| ->].
    + apply String_as_OT.cmp_lt in Hlt. unfold String_as_OT.cmp in Hlt. by rewrite Hlt.
    + assert (String.compare b b = Eq) as -> by (by apply String_as_OT.cmp_eq). done.
Qed.

Lemma string_leb_trans a b c :
  String.leb a b = true -> String.leb b c = true -> String.leb a c = true.
Proof.
  rewrite !string_leb_iff. intros [Hab| ->] [Hbc| ->]; eauto.
  left. by eapply String_as_OT.lt_trans.
Qed.

Lemma text_le_total a b : text_le a b = true \/ text_le b a = true.
Proof. destruct a, b; simpl; eauto. apply String.leb_total. Qed.

Lemma text_le_trans a b c :
  text_le a b = true -> text_le b c = true -> text_le a c = true.
Proof. destruct a, b, c; simpl; try done. apply string_leb_trans. Qed.

(** The YYYY-MM part of an ISO date text. *)
Definition month_text (date : string) : string := String.substring 0 7 date.

(** The month a YYYY-MM text names, counted in months. *)
Definition month_index (m : string) : option Z :=
  match list_ascii_of_string m with
  | [y1; y2; y3; y4; s; m1; m2] =>
      if Ascii.eqb s "-"%char then
        y ← digits_val [y1; y2; y3; y4];
        mo ← digits_val [m1; m2];
        Some (12 * y + mo)
      else None
  | _ => None
  end.

Definition generated_months : list string :=
  remove_dups (month_text <$> generated_dates).

Definition date_ok (d : string) : bool :=
  match strftime_Ym d with
  | Some m => String.eqb m (month_text d)
  | None => false
  end.

Definition month_pair_ok (m1 m2 : string) : bool :=
  match month_index m1, month_index m2 with
  | Some i, Some j =>
      if String.leb m1 m2 && negb (String.eqb m1 m2) then i <? j else true
  | _, _ => false
  end.

Lemma dates_ok d : In d generated_dates -> date_ok d = true.
Proof. apply forallb_forall. vm_compute. reflexivity. Qed.

Lemma months_ok m1 :
  In m1 generated_months ->
  forallb (month_pair_ok m1) generated_months = true.
Proof.
  apply (proj1 (forallb_forall (fun m1 => forallb (month_pair_ok m1) generated_months)
                  generated_months)).
  vm_compute. reflexivity.
Qed.

(** On a generated date, strftime('%Y-%m', _) is the YYYY-MM part. *)
Lemma strftime_generated d :
  d ∈ generated_dates -> strftime_Ym d = Some (month_text d).
Proof.
  intros Hd. apply list_elem_of_In, dates_ok in Hd. unfold date_ok in Hd.
  destruct (strftime_Ym d) as [m|]; [|done]. apply String.eqb_eq in Hd. by subst.
Qed.

(** Among the generated months, bytewise order is chronological order. *)
Lemma months_chronological m1 m2 :
  m1 ∈ generated_months -> m2 ∈ generated_months ->
  String.leb m1 m2 = true -> m1 <> m2 ->
  exists i j, month_index m1 = Some i /\ month_index m2 = Some j /\ i < j.
Proof.
  intros H1 H2 Hle Hne. apply list_elem_of_In, months_ok in H1.
  rewrite forallb_forall in H1. apply list_elem_of_In, H1 in H2.
  unfold month_pair_ok in H2.
  destruct (month_index m1) as [i|], (month_index m2) as [j|]; try done.
  rewrite Hle in H2. destruct (String.eqb_spec m1 m2) as [->|_]; [done|].
  simpl in H2. exists i, j. repeat split. lia.
Qed.

Lemma filter_ext_in {A} (P Q : A -> Prop) `{!forall x, Decision (P x)}
    `{!forall x, Decision (Q x)} (l : list A) :
  (forall x, x ∈ l -> P x <-> Q x) -> filter P l = filter Q l.
Proof.
  induction l as [|x l IH]; intros Hext; [done|].
  assert (filter P l = filter Q l) as Hl.
  { apply IH. intros y Hy. apply Hext. by right. }
  destruct (decide (P x)) as [HP|HP].
  - rewrite !filter_cons_True; [by rewrite Hl|by apply Hext; [left|]|done].
  - rewrite !filter_cons_False; [done| |done]. intros HQ. apply HP, Hext; [left|done].
Qed.

Lemma StronglySorted_strict {A K} (f : A -> K) (R1 R2 : relation A) l :
  StronglySorted R1 l -> NoDup (f <$> l) ->
  (forall x y, x ∈ l -> y ∈ l -> R1 x y -> f x <> f y -> R2 x y) ->
  StronglySorted R2 l.
Proof.
  induction 1 as [|x l Hl IH Hx]; intros Hnd HR; [constructor|].
  rewrite fmap_cons in Hnd. apply NoDup_cons in Hnd as [Hfresh Hnd].
  constructor.
  - apply IH; [done|]. intros y z Hy Hz. apply HR; by right.
  - apply Forall_forall. intros y Hy. apply HR; [left|by right| |].
    + by apply (proj1 (Forall_forall _ _) Hx).
    + intros Heq. apply Hfresh. rewrite Heq. apply list_elem_of_fmap. by exists y.
Qed.

(** The month of the first row is before the month of the second. *)
Definition chronologically_before (a b : option string) : Prop :=
  exists x y i j, a = Some x /\ b = Some y
    /\ month_index x = Some i /\ month_index y = Some j /\ i < j.

Lemma grouped_dates nc os its g o :
  grouped nc os its g -> o ∈ os -> order_date o ∈ generated_dates.
Proof.
  intros Hg Ho. destruct (grouped_order _ _ _ _ _ Hg Ho) as [items Hin].
  destruct Hg as (_ & _ & Hall & _).
  by pose proof (proj1 (Forall_forall _ _) Hall _ Hin) as (_ & Hd & _).
Qed.

(** C5: the rows are the distinct months of the generated order dates, in
    strictly increasing chronological order, each with the sum of the totals
    of the orders of that month. *)
Theorem monthly_sales_by_month `{SqlEngine} rs :
  exists d rs' rows,
    generate num_customers num_orders rs = Ok (d, rs')
    /\ query_monthly_sales (store_of d) = Ok rows
    /\ StronglySorted (fun r1 r2 =>
         chronologically_before (order_month r1) (order_month r2)) rows
    /\ (forall m, Some m ∈ order_month <$> rows
                  <-> exists o, o ∈ orders d /\ month_text (order_date o) = m)
    /\ (forall r, r ∈ rows ->
          exists m, order_month r = Some m
            /\ monthly_sales r
               = sum_real (total_amount <$>
                             filter (fun o => month_text (order_date o) = m) (orders d))).
Proof.
  destruct (gen_wp_elim _ _ _ (generate_wp num_customers num_orders rs ltac:(done)))
    as (d & rs' & Hgen & _ & _ & [g Hg] & _).
  exists d, rs'. eexists. split; [done|]. split; [reflexivity|].
  set (key := fun o => strftime_Ym (order_date o)).
  set (mk := fun g : option string * list Order =>
               mkMonthRow g.1 (sum_real (total_amount <$> g.2))).
  set (le := fun r1 r2 => text_le (order_month r1) (order_month r2)).
  assert (forall o, o ∈ orders d -> key o = Some (month_text (order_date o))) as Hkey.
  { intros o Ho. apply strftime_generated. by eapply grouped_dates. }
  assert (forall r, r ∈ order_by le (mk <$> group_by key (orders d)) ->
            exists o, o ∈ orders d
              /\ order_month r = Some (month_text (order_date o))
              /\ monthly_sales r
                 = sum_real (total_amount <$>
                      filter (fun o' => month_text (order_date o')
                                        = month_text (order_date o)) (orders d)))
    as Hrow.
  { intros r Hr. apply elem_of_order_by, list_elem_of_fmap in Hr as ([k os] & -> & Hgrp).
    apply elem_of_group_by in Hgrp as (-> & o & Ho & <-).
    exists o. split; [done|]. split; [by apply Hkey|]. simpl. do 2 f_equal.
    apply filter_ext_in. intros o' Ho'. rewrite (Hkey o Ho), (Hkey o' Ho').
    split; [by intros [= ->]|by intros ->]. }
  split; [|split].
  - eapply (StronglySorted_strict order_month).
    + apply (order_by_sorted _ le).
      * intros x y. apply text_le_total.
      * intros x y z. apply text_le_trans.
    + rewrite (order_by_perm _ _ _), <- list_fmap_compose.
      rewrite (list_fmap_ext _ fst (group_by key (orders d))) by (by intros ? [??]).
      apply group_by_NoDup.
    + intros x y Hx Hy Hle Hne.
      destruct (Hrow x Hx) as (ox & Hox & Hmx & _).
      destruct (Hrow y Hy) as (oy & Hoy & Hmy & _).
      unfold le in Hle. cbv beta in Hle.
      rewrite Hmx, Hmy in Hle, Hne |- *. simpl in Hle.
      destruct (months_chronological (month_text (order_date ox))
                  (month_text (order_date oy))) as (i & j & Hi & Hj & Hij).
      * apply elem_of_remove_dups, list_elem_of_fmap. eexists. split; [done|].
        by eapply grouped_dates.
      * apply elem_of_remove_dups, list_elem_of_fmap. eexists. split; [done|].
        by eapply grouped_dates.
      * done.
      * congruence.
      * by exists (month_text (order_date ox)), (month_text (order_date oy)), i, j.
  - intros m. split.
    + intros Hm. apply list_elem_of_fmap in Hm as (r & Hm & Hr).
      destruct (Hrow r Hr) as (o & Ho & Hmo & _). exists o. split; [done|]. congruence.
    + intros (o & Ho & <-). apply list_elem_of_fmap.
      exists (mk (key o, filter (fun o' => key o' = key o) (orders d))).
      split; [by rewrite <- (Hkey o Ho)|].
      apply elem_of_order_by, list_elem_of_fmap. eexists. split; [done|].
      apply elem_of_group_by. split; [done|]. by exists o.
  - intros r Hr. destruct (Hrow r Hr) as (o & Ho & Hmo & Hsum). by eexists.
Qed.

(** ** The whole run *)

Definition image_paths : list string :=
  [ os_path_join OUTPUT_DIR "monthly_sales_trend.png";
    os_path_join OUTPUT_DIR "best_selling_products.png";
    os_path_join OUTPUT_DIR "top_customers_spending.png";
    os_path_join OUTPUT_DIR "customer_segmentation.png" ].

(** The output directory exists or can be created, and nothing stands in
    the way of the four image files. *)
Definition output_dir_usable (f : FileSystem) : bool :=
  negb (bool_decide (OUTPUT_DIR ∈ files f))
  && (bool_decide (OUTPUT_DIR ∈ dirs f) || negb (bool_decide (OUTPUT_DIR ∈ denied f)))
  && forallb (fun p => negb (bool_decide (p ∈ dirs f))
                       && negb (bool_decide (p ∈ denied f))) image_paths.

Lemma savefig_ok path w :
  os_path_dirname path ∉ files (fs w) ->
  os_path_dirname path ∈ dirs (fs w) ->
  path ∉ dirs (fs w) -> path ∉ denied (fs w) ->
  savefig path w
  = Done () (mkWorld (mkFS (dirs (fs w)) ({[path]} ∪ files (fs w)) (denied (fs w)))
                     (db w) (rng w)).
Proof.
  intros H1 H2 H3 H4. unfold savefig.
  rewrite (bool_decide_eq_false_2 _ H1), (bool_decide_eq_true_2 _ H2),
    (bool_decide_eq_false_2 _ H3), (bool_decide_eq_false_2 _ H4).
  by rewrite orb_true_r.
Qed.

Lemma image_paths_dirname p : p ∈ image_paths -> os_path_dirname p = OUTPUT_DIR.
Proof.
  intros Hp. unfold image_paths in Hp.
  repeat (apply elem_of_cons in Hp as [->|Hp]; [vm_compute; reflexivity|]).
  by apply elem_of_nil in Hp.
Qed.

Lemma image_paths_distinct :
  NoDup image_paths /\ OUTPUT_DIR ∉ image_paths /\ length image_paths = 4%nat.
Proof.
  split; [|split; [|done]].
  - apply (bool_decide_unpack (NoDup image_paths)). vm_compute. exact I.
  - apply (bool_decide_unpack (OUTPUT_DIR ∉ image_paths)). vm_compute. exact I.
Qed.

Lemma export_images_ok w :
  OUTPUT_DIR ∉ files (fs w) -> OUTPUT_DIR ∈ dirs (fs w) ->
  (forall p, p ∈ image_paths -> p ∉ dirs (fs w) /\ p ∉ denied (fs w)) ->
  export_images w
  = Done () (mkWorld (mkFS (dirs (fs w)) (list_to_set image_paths ∪ files (fs w))
                           (denied (fs w)))
                     (db w) (rng w)).
Proof.
  intros Hfile Hdir Hfree. destruct image_paths_distinct as (_ & Hout & _).
  unfold export_images.
  assert (forall p (X : gset string),
            p ∈ image_paths -> (forall x, x ∈ X -> x ∈ image_paths) ->
            os_path_dirname p ∉ X ∪ files (fs w)) as Hnot.
  { intros p X Hp HX. rewrite (image_paths_dirname p Hp).
    intros [Hin|Hin]%elem_of_union; [|done]. by apply HX in Hin. }
  assert (forall p, p ∈ image_paths -> os_path_dirname p ∈ dirs (fs w)) as Hd.
  { intros p Hp. by rewrite image_paths_dirname. }
  erewrite script_bind_done; cycle 1.
  { apply savefig_ok.
    - rewrite image_paths_dirname; [done|]. repeat constructor.
    - apply Hd. repeat constructor.
    - apply Hfree. repeat constructor.
    - apply Hfree. repeat constructor. }
  cbv beta. erewrite script_bind_done; cycle 1.
  { apply savefig_ok; simpl.
    - apply Hnot; [repeat constructor|]. intros x Hx.
      apply elem_of_singleton in Hx as ->. repeat constructor.
    - apply Hd. repeat constructor.
    - apply Hfree. repeat constructor.
    - apply Hfree. repeat constructor. }
  cbv beta. erewrite script_bind_done; cycle 1.
  { apply savefig_ok; simpl.
    - rewrite (assoc_L (∪)). apply Hnot; [repeat constructor|]. intros x Hx.
      apply elem_of_union in Hx as [Hx|Hx]; apply elem_of_singleton in Hx as ->;
        repeat constructor.
    - apply Hd. repeat constructor.
    - apply Hfree. repeat constructor.
    - apply Hfree. repeat constructor. }
  cbv beta. erewrite savefig_ok; simpl.
  - do 3 f_equal. apply set_eq. intros x.
    rewrite !elem_of_union, !elem_of_singleton, elem_of_empty. tauto.
  - rewrite !(assoc_L (∪)). apply Hnot; [repeat constructor|]. intros x Hx.
    apply elem_of_union in Hx as [Hx|Hx]; [apply elem_of_union in Hx as [Hx|Hx]|];
      apply elem_of_singleton in Hx as ->; repeat constructor.
  - apply Hd. repeat constructor.
  - apply Hfree. repeat constructor.
  - apply Hfree. repeat constructor.
Qed.

Lemma setup_output_dir_ok w :
  OUTPUT_DIR ∉ files (fs w) ->
  OUTPUT_DIR ∈ dirs (fs w) \/ OUTPUT_DIR ∉ denied (fs w) ->
  setup_output_dir w
  = Done () (mkWorld (mkFS ({[OUTPUT_DIR]} ∪ dirs (fs w)) (files (fs w)) (denied (fs w)))
                     (db w) (rng w)).
Proof.
  intros Hfile Hor. destruct w as [[ds fl dn] st rs]. simpl in *.
  unfold setup_output_dir, mbind, script_bind, os_path_exists. simpl.
  rewrite (bool_decide_eq_false_2 _ Hfile), orb_false_r.
  destruct (decide (OUTPUT_DIR ∈ ds)) as [Hin|Hout].
  - rewrite (bool_decide_eq_true_2 _ Hin). simpl. do 3 f_equal.
    apply set_eq. intros x. rewrite elem_of_union, elem_of_singleton.
    split; [by right|]. by intros [->|?].
  - rewrite (bool_decide_eq_false_2 _ Hout). simpl. unfold os_makedirs. simpl.
    rewrite (bool_decide_eq_false_2 _ Hout), (bool_decide_eq_false_2 _ Hfile).
    destruct Hor as [?|Hden]; [done|]. by rewrite (bool_decide_eq_false_2 _ Hden).
Qed.

Lemma read_sql_query_ok {A} (query : Store -> result A) w a :
  query (db w) = Ok a -> read_sql_query query w = Done a w.
Proof. unfold read_sql_query. by intros ->. Qed.

Lemma run_queries_ok `{SqlEngine} w d g nc :
  db w = store_of d -> grouped nc (orders d) (order_items d) g ->
  (length (orders d) <= 1000)%nat ->
  exists report, run_queries w = Done report w.
Proof.
  intros Hdb Hg Hlen. unfold run_queries.
  erewrite script_bind_done; [|apply read_sql_query_ok; by rewrite Hdb].
  cbv beta.
  erewrite script_bind_done; [|apply read_sql_query_ok; by rewrite Hdb].
  cbv beta.
  erewrite script_bind_done; cycle 1.
  { apply read_sql_query_ok. rewrite Hdb. unfold store_of.
    apply query_best_products_ok; [by eapply grouped_rows_ok|].
    rewrite insert_items_length. pose proof (grouped_counts _ _ _ _ Hg). lia. }
  cbv beta.
  erewrite script_bind_done; [|apply read_sql_query_ok; by rewrite Hdb].
  by eexists.
Qed.

(** C8: whatever the store held before, a complete run leaves 200 customers,
    the 10 products, 1000 orders and 1000 to 5000 line items, and adds the
    four image files to the output directory. *)
Theorem full_run_store_and_images `{SqlEngine} w :
  output_dir_usable (fs w) = true ->
  exists report w' d rs' cs os ois,
    sql_data_analysis w = Done report w'
    /\ generate num_customers num_orders (rng w) = Ok (d, rs')
    /\ db w' = store_of d
    /\ db w' = mkStore (Some cs) (Some products) (Some os) (Some ois)
    /\ length cs = 200%nat /\ length products = 10%nat /\ length os = 1000%nat
    /\ (1000 <= length ois <= 5000)%nat
    /\ files (fs w') = list_to_set image_paths ∪ files (fs w)
    /\ NoDup image_paths /\ length image_paths = 4%nat
    /\ forall p, p ∈ image_paths -> os_path_dirname p = OUTPUT_DIR.
Proof.
  intros Hfs. unfold output_dir_usable in Hfs.
  apply andb_prop in Hfs as [Hfs Hpaths]. apply andb_prop in Hfs as [Hfile Hdir].
  apply negb_true_iff, bool_decide_eq_false in Hfile.
  assert (OUTPUT_DIR ∈ dirs (fs w) \/ OUTPUT_DIR ∉ denied (fs w)) as Hor.
  { apply orb_prop in Hdir as [Hd|Hd]; [left; by apply bool_decide_eq_true in Hd|].
    right. by apply negb_true_iff, bool_decide_eq_false in Hd. }
  rewrite forallb_forall in Hpaths.
  assert (forall p, p ∈ image_paths -> p ∉ dirs (fs w) /\ p ∉ denied (fs w)) as Hfree.
  { intros p Hp. apply list_elem_of_In, Hpaths, andb_prop in Hp as [H1 H2].
    apply negb_true_iff, bool_decide_eq_false in H1, H2. done. }
  destruct image_paths_distinct as (Hnd & Hout & Hfour).
  set (w1 := mkWorld (mkFS ({[OUTPUT_DIR]} ∪ dirs (fs w)) (files (fs w)) (denied (fs w)))
                     (db w) (rng w)).
  set (w2 := mkWorld (fs w1) empty_store (rng w1)).
  destruct (insert_synthetic_data_outcome w2 eq_refl) as (d & rs' & Hgen & Hins).
  destruct (gen_wp_elim _ _ _ (generate_wp num_customers num_orders (rng w) ltac:(done)))
    as (d' & rs'' & Hgen' & Hids & _ & [g Hg] & Hlen & _).
  simpl in Hgen. rewrite Hgen in Hgen'. injection Hgen' as <- <-.
  set (w3 := mkWorld (fs w2) (store_of d) rs') in *.
  destruct (run_queries_ok w3 d g num_customers eq_refl Hg) as [report Hq].
  { rewrite Hlen. done. }
  exists report. eexists. exists d, rs', (customers d), (orders d),
    (insert_items (order_items d) []).
  split.
  { unfold sql_data_analysis.
    rewrite (script_bind_done _ _ _ _ _ (setup_output_dir_ok w Hfile Hor)). cbv beta.
    fold w1. change (drop_tables ≫= _) with
      ((drop_tables;; create_tables) ≫= (fun _ : unit =>
         insert_synthetic_data;; report ← run_queries; export_images;; mret report)).
    rewrite (script_bind_done _ _ _ _ _ (reset_store w1)). cbv beta. fold w2.
    rewrite (script_bind_done _ _ _ _ _ Hins). cbv beta. fold w3.
    rewrite (script_bind_done _ _ _ _ _ Hq). cbv beta.
    erewrite script_bind_done; [|apply export_images_ok].
    - reflexivity.
    - done.
    - simpl. apply elem_of_union. left. by apply elem_of_singleton.
    - intros p Hp. simpl. destruct (Hfree p Hp) as [Hpd Hpn]. split; [|done].
      intros [Heq|Hin]%elem_of_union; [|done].
      apply elem_of_singleton in Heq. by subst. }
  split; [done|]. split; [done|]. split; [done|].
  pose proof (grouped_counts _ _ _ _ Hg) as Hcount.
  assert (length (customers d) = 200%nat) as Hcs.
  { rewrite <- (length_fmap customer_id), Hids, range_length. done. }
  rewrite insert_items_length, Hlen in *.
  change (Z.to_nat num_orders) with 1000%nat in *.
  repeat split; try done; try lia.
  apply image_paths_dirname.
Qed.

(** A world with a stale store and a file system without the output
    directory. *)
Definition stale_world : World :=
  mkWorld (mkFS ∅ {["notes.txt"]} ∅)
          (mkStore (Some [mkCustomer 7 "Old" "old@example.com" "2019-01-01"])
                   None None None)
          sample_source.

Lemma full_run_store_and_images_witness :
  output_dir_usable (fs stale_world) = true
  /\ exists report w' d rs' cs os ois,
       @sql_data_analysis stable_engine stale_world = Done report w'
       /\ generate num_customers num_orders (rng stale_world) = Ok (d, rs')
       /\ db w' = store_of d
       /\ db w' = mkStore (Some cs) (Some products) (Some os) (Some ois)
       /\ length cs = 200%nat /\ length products = 10%nat /\ length os = 1000%nat
       /\ (1000 <= length ois <= 5000)%nat
       /\ files (fs w') = list_to_set image_paths ∪ files (fs stale_world)
       /\ NoDup image_paths /\ length image_paths = 4%nat
       /\ forall p, p ∈ image_paths -> os_path_dirname p = OUTPUT_DIR.
Proof.
  split; [vm_compute; reflexivity|].
  apply (@full_run_store_and_images stable_engine stale_world).
  vm_compute. reflexivity.
Defined.

(** ** C3: what the generated tables depend on *)

(** Two random states deliver the same draws from here on. *)
Definition same_draws (rs1 rs2 : RandomState) : Prop :=
  forall i, raw rs1 (cursor rs1 + i)%nat = raw rs2 (cursor rs2 + i)%nat.

(** On states that deliver the same draws, [m] has the same result and
    leaves states that deliver the same draws. *)
Definition gen_agree {A} (m : Gen A) : Prop :=
  forall rs1 rs2, same_draws rs1 rs2 ->
    match m rs1, m rs2 with
    | Ok (a1, r1), Ok (a2, r2) => a1 = a2 /\ same_draws r1 r2
    | Raise e1, Raise e2 => e1 = e2
    | _, _ => False
    end.

Lemma gen_agree_ret {A} (a : A) : gen_agree (mret a).
Proof. by intros rs1 rs2 Hs. Qed.

Lemma gen_agree_bind {A B} (m : Gen A) (k : A -> Gen B) :
  gen_agree m -> (forall a, gen_agree (k a)) -> gen_agree (m ≫= k).
Proof.
  intros Hm Hk rs1 rs2 Hs. specialize (Hm rs1 rs2 Hs).
  unfold mbind, gen_bind.
  destruct (m rs1) as [[a1 r1]|e1], (m rs2) as [[a2 r2]|e2]; try done.
  destruct Hm as [-> Hr]. by apply Hk.
Qed.

Lemma gen_agree_randint low high : gen_agree (randint low high).
Proof.
  intros rs1 rs2 Hs. unfold randint. destruct (low <? high); [|done].
  split.
  - pose proof (Hs 0%nat) as H0. rewrite !Nat.add_0_r in H0. by rewrite H0.
  - intros i. simpl. specialize (Hs (S i)). by rewrite !Nat.add_succ_r in Hs.
Qed.

Lemma gen_agree_lift_option {A} e (o : option A) : gen_agree (lift_option e o).
Proof. destruct o; [apply gen_agree_ret|by intros rs1 rs2 Hs]. Qed.

Lemma gen_agree_for_each {I S} (l : list I) (body : I -> S -> Gen S) :
  (forall i s, gen_agree (body i s)) -> forall s, gen_agree (for_each l body s).
Proof.
  intros Hbody. induction l as [|i l IH]; intros s; simpl.
  - apply gen_agree_ret.
  - by apply gen_agree_bind.
Qed.

Lemma gen_agree_random_date : gen_agree random_date.
Proof.
  apply gen_agree_bind; [apply gen_agree_randint|]. intros k.
  apply gen_agree_bind; [apply gen_agree_lift_option|]. intros d.
  apply gen_agree_ret.
Qed.

Lemma gen_agree_generate nc no : gen_agree (generate nc no).
Proof.
  apply gen_agree_bind.
  { apply gen_agree_for_each. intros i cs.
    apply gen_agree_bind; [apply gen_agree_random_date|]. intros d.
    apply gen_agree_ret. }
  intros cs. apply gen_agree_bind; [|intros [os its]; apply gen_agree_ret].
  apply gen_agree_bind; [|intros [[os its] oid]; apply gen_agree_ret].
  apply gen_agree_for_each. intros i [[os its] oid].
  apply gen_agree_bind; [apply gen_agree_randint|]. intros cid.
  apply gen_agree_bind; [apply gen_agree_random_date|]. intros d.
  apply gen_agree_bind; [apply gen_agree_randint|]. intros n.
  apply gen_agree_bind; [|intros [total items]; apply gen_agree_ret].
  apply gen_agree_for_each. intros j [total items].
  apply gen_agree_bind; [apply gen_agree_randint|]. intros k.
  apply gen_agree_bind; [apply gen_agree_lift_option|]. intros p.
  apply gen_agree_bind; [apply gen_agree_randint|]. intros q.
  apply gen_agree_ret.
Qed.

(** What a run of the generator yields, the final random state left out. *)
Definition tables_of (r : result (Dataset * RandomState)) : result Dataset :=
  match r with
  | Ok (d, _) => Ok d
  | Raise e => Raise e
  end.

(** C3: two runs of the generator with the same counts on random sources
    that deliver the same draws, as two sources seeded alike do, produce the
    same tables (or raise the same exception). *)
Theorem generator_determined_by_draws nc no rs1 rs2 :
  same_draws rs1 rs2 ->
  tables_of (generate nc no rs1) = tables_of (generate nc no rs2).
Proof.
  intros Hs. pose proof (gen_agree_generate nc no rs1 rs2 Hs) as H.
  destruct (generate nc no rs1) as [[d1 r1]|e1], (generate nc no rs2) as [[d2 r2]|e2];
    simpl; try done.
  - by destruct H as [-> _].
  - by subst.
Qed.

(** The sample source after five draws were consumed elsewhere, and a
    fresh source that delivers the same values from the start. *)
Definition shifted_source : RandomState :=
  mkRandomState (raw sample_source) 5.

Definition replayed_source : RandomState :=
  mkRandomState (fun n => raw sample_source (5 + n)) 0.

Lemma generator_determined_by_draws_witness :
  same_draws shifted_source replayed_source
  /\ tables_of (generate 3 4 shifted_source) = tables_of (generate 3 4 replayed_source).
Proof.
  split; [intros i; reflexivity|].
  apply (generator_determined_by_draws 3 4 shifted_source replayed_source).
  intros i. reflexivity.
Defined.

(** ** C9: renders and the output directory *)

(** [generate_visualizations.py] saves into [images/] without creating it:
    when that directory is missing the first render raises
    FileNotFoundError and nothing is written. *)
Theorem generate_visualizations_needs_images_dir w :
  bool_decide ("images" ∈ dirs (fs w)) = false ->
  bool_decide ("images" ∈ files (fs w)) = false ->
  generate_visualizations w = Failed FileNotFoundError w.
Proof.
  intros Hdir Hfile. unfold generate_visualizations.
  apply script_bind_failed. unfold create_monthly_sales_trend, savefig.
  change (os_path_dirname "images/monthly_sales_trend.png") with "images".
  by rewrite Hfile, Hdir.
Qed.

Lemma generate_visualizations_needs_images_dir_witness :
  bool_decide ("images" ∈ dirs (fs stale_world)) = false
  /\ bool_decide ("images" ∈ files (fs stale_world)) = false
  /\ generate_visualizations stale_world = Failed FileNotFoundError stale_world.
Proof.
  split; [reflexivity|]. split; [reflexivity|].
  apply (generate_visualizations_needs_images_dir stale_world); reflexivity.
Defined.

(** * Further properties of the code *)

(** ** The generator at its edges *)

(** X1: With no customer to pick, the first order raises ValueError:
    [np.random.randint(1, num_customers+1)] has an empty range. *)
Theorem generate_without_customers nc no rs :
  nc <= 0 -> 0 < no -> generate nc no rs = Raise ValueError.
Proof.
  intros Hnc Hno. unfold generate, gen_customers, gen_orders, range.
  rewrite (seqZ_nil 1) by lia. rewrite (seqZ_cons 0) by lia. simpl.
  unfold mbind, gen_bind, mret, gen_ret, randint. simpl.
  destruct (Z.ltb_spec 1 (nc + 1)); [lia|done].
Qed.

Lemma generate_without_customers_witness :
  0 <= 0 /\ 0 < 1 /\ generate 0 1 sample_source = Raise ValueError.
Proof.
  split; [lia|]. split; [lia|].
  apply (generate_without_customers 0 1 sample_source); lia.
Defined.

(** X2: With no order to generate, the customers are generated alone, even
    when there are none. *)
Theorem generate_without_orders nc no rs :
  no <= 0 ->
  exists cs rs',
    generate nc no rs = Ok (mkDataset cs [] [], rs')
    /\ customer_id <$> cs = range 1 (nc + 1)
    /\ cursor rs' = (cursor rs + length cs)%nat.
Proof.
  intros Hno.
  destruct (gen_wp_elim _ _ _ (gen_customers_wp nc rs)) as (cs & rs' & Hcs & Hids & _ & Hcur & _).
  exists cs, rs'. split; [|done].
  unfold generate, mbind, gen_bind. rewrite Hcs.
  unfold gen_orders, range. rewrite (seqZ_nil 0) by lia. done.
Qed.

Lemma generate_without_orders_witness :
  0 <= 0
  /\ exists cs rs',
       generate 2 0 sample_source = Ok (mkDataset cs [] [], rs')
       /\ customer_id <$> cs = range 1 (2 + 1)
       /\ cursor rs' = (cursor sample_source + length cs)%nat.
Proof.
  split; [lia|]. apply (generate_without_orders 2 0 sample_source). lia.
Defined.

(** ** Identifiers, counts and draws *)

(** X3: Customers are numbered 1..N and orders 1..M in list order, every order
    has one to five line items with quantities of 1 to 3, and the generator
    consumes one draw per customer, three per order and two per line
    item. *)
Theorem generated_identifiers_and_counts nc no rs :
  0 < nc ->
  exists d rs',
    generate nc no rs = Ok (d, rs')
    /\ customer_id <$> customers d = range 1 (nc + 1)
    /\ order_id <$> orders d = range 1 (Z.max no 0 + 1)
    /\ (forall o, o ∈ orders d ->
          (1 <= length (items_of o (order_items d)) <= 5)%nat
          /\ 1 <= order_customer_id o <= nc)
    /\ (forall it, it ∈ order_items d -> 1 <= quantity it <= 3)
    /\ (length (orders d) <= length (order_items d) <= 5 * length (orders d))%nat
    /\ cursor rs' = (cursor rs + length (customers d) + 3 * length (orders d)
                     + 2 * length (order_items d))%nat.
Proof.
  intros Hnc.
  destruct (gen_wp_elim _ _ _ (generate_wp nc no rs Hnc))
    as (d & rs' & Hgen & Hids & _ & [g Hg] & Hlen & Hcur & _).
  exists d, rs'. split; [done|]. split; [done|].
  pose proof (grouped_counts _ _ _ _ Hg) as Hcount.
  split; [|split; [|split; [|split; [done|done]]]].
  - destruct Hg as (_ & _ & _ & Hseq). rewrite Hseq, Hlen. unfold range.
    f_equal. lia.
  - intros o Ho. destruct (grouped_order _ _ _ _ _ Hg Ho) as [items Hin].
    unfold items_of. rewrite (grouped_items_of _ _ _ _ _ _ Hg Hin).
    destruct Hg as (_ & _ & Hall & _).
    by pose proof (proj1 (Forall_forall _ _) Hall _ Hin) as (Hcid & _ & Hl & _).
  - intros it Hit.
    destruct (grouped_item _ _ _ _ _ Hg Hit) as (o & items & Hin & Hitin & _).
    destruct Hg as (_ & _ & Hall & _).
    pose proof (proj1 (Forall_forall _ _) Hall _ Hin) as (_ & _ & _ & Hwf & _).
    by pose proof (proj1 (Forall_forall _ _) Hwf _ Hitin) as (_ & Hq & _).
Qed.

Lemma generated_identifiers_and_counts_witness :
  0 < 3
  /\ exists d rs',
       generate 3 4 sample_source = Ok (d, rs')
       /\ customer_id <$> customers d = range 1 (3 + 1)
       /\ order_id <$> orders d = range 1 (Z.max 4 0 + 1)
       /\ (forall o, o ∈ orders d ->
             (1 <= length (items_of o (order_items d)) <= 5)%nat
             /\ 1 <= order_customer_id o <= 3)
       /\ (forall it, it ∈ order_items d -> 1 <= quantity it <= 3)
       /\ (length (orders d) <= length (order_items d) <= 5 * length (orders d))%nat
       /\ cursor rs' = (cursor sample_source + length (customers d)
                        + 3 * length (orders d) + 2 * length (order_items d))%nat.
Proof.
  split; [lia|]. apply (generated_identifiers_and_counts 3 4 sample_source). lia.
Defined.

(** ** Amounts and dates *)

Lemma item_cents_bounds oid it :
  item_wf oid it -> 1499 <= item_cents it <= 359997.
Proof.
  intros (_ & Hq & p & Hp & _ & Hprice). unfold item_cents. rewrite <- Hprice.
  assert (1499 <= price_cents (price p) <= 119999) as Hc.
  { unfold products in Hp.
    repeat (apply elem_of_cons in Hp as [->|Hp]; [by vm_compute|]).
    by apply elem_of_nil in Hp. }
  nia.
Qed.

Lemma cents_total_bounds oid items :
  Forall (item_wf oid) items ->
  1499 * Z.of_nat (length items) <= cents_total items
  <= 359997 * Z.of_nat (length items).
Proof.
  induction 1 as [|it items Hit _ IH]; [simpl; lia|].
  change (cents_total (it :: items)) with (item_cents it + cents_total items).
  pose proof (item_cents_bounds _ _ Hit). simpl length. lia.
Qed.

(** X4: Every stored total is the double of a whole number of cents between
    14.99 and 17999.85. *)
Theorem generated_total_bounds nc no rs :
  0 < nc ->
  exists d rs',
    generate nc no rs = Ok (d, rs')
    /\ forall o, o ∈ orders d ->
         exists n, total_amount o = B64.decimal2 n /\ 1499 <= n <= 1799985.
Proof.
  intros Hnc.
  destruct (gen_wp_elim _ _ _ (generate_wp nc no rs Hnc))
    as (d & rs' & Hgen & _ & _ & [g Hg] & _).
  exists d, rs'. split; [done|]. intros o Ho.
  destruct (grouped_order _ _ _ _ _ Hg Ho) as [items Hin].
  destruct Hg as (_ & _ & Hall & _).
  pose proof (proj1 (Forall_forall _ _) Hall _ Hin) as Hwf.
  destruct (order_total _ _ Hwf) as (Htot & _ & _).
  destruct Hwf as (_ & _ & Hlen & Hitems & _). simpl in *.
  exists (cents_total items). split; [done|].
  pose proof (cents_total_bounds _ _ Hitems). lia.
Qed.

Lemma generated_total_bounds_witness :
  0 < 3
  /\ exists d rs',
       generate 3 4 sample_source = Ok (d, rs')
       /\ forall o, o ∈ orders d ->
            exists n, total_amount o = B64.decimal2 n /\ 1499 <= n <= 1799985.
Proof.
  split; [lia|]. apply (generated_total_bounds 3 4 sample_source). lia.
Defined.

(** A text YYYY-MM-DD naming a day of 2021 or 2022. *)
Definition date_in_window (text : string) : bool :=
  match parse_ymd text with
  | Some (y, m, d) =>
      (2021 <=? y) && (y <=? 2022) && (1 <=? m) && (m <=? 12) && (1 <=? d)
      && (d <=? PyDate.DAYS_IN_MONTH !!! Z.to_nat m)
      && String.eqb text (PyDate.isoformat (PyDate.mkdate y m d))
  | None => false
  end.

Lemma generated_dates_in_window d : In d generated_dates -> date_in_window d = true.
Proof. apply forallb_forall. vm_compute. reflexivity. Qed.

(** X5: Registration dates and order dates are ISO texts of days between
    2021-01-01 and 2022-12-31. *)
Theorem generated_dates_window nc no rs :
  0 < nc ->
  exists d rs',
    generate nc no rs = Ok (d, rs')
    /\ (forall c, c ∈ customers d -> date_in_window (registration_date c) = true)
    /\ (forall o, o ∈ orders d -> date_in_window (order_date o) = true).
Proof.
  intros Hnc.
  destruct (gen_wp_elim _ _ _ (generate_wp nc no rs Hnc))
    as (d & rs' & Hgen & _ & Hcs & [g Hg] & _).
  exists d, rs'. split; [done|]. split.
  - intros c Hc. apply generated_dates_in_window, list_elem_of_In.
    by pose proof (proj1 (Forall_forall _ _) Hcs _ Hc) as (_ & _ & Hd).
  - intros o Ho. apply generated_dates_in_window, list_elem_of_In.
    by eapply grouped_dates.
Qed.

Lemma generated_dates_window_witness :
  0 < 3
  /\ exists d rs',
       generate 3 4 sample_source = Ok (d, rs')
       /\ (forall c, c ∈ customers d -> date_in_window (registration_date c) = true)
       /\ (forall o, o ∈ orders d -> date_in_window (order_date o) = true).
Proof.
  split; [lia|]. apply (generated_dates_window 3 4 sample_source). lia.
Defined.

(** ** The store *)

(** X6: CREATE TABLE without the preceding drops fails as soon as one of the
    four tables is there. *)
Theorem create_tables_existing w :
  is_Some (Customers (db w)) \/ is_Some (Products (db w))
  \/ is_Some (Orders (db w)) \/ is_Some (OrderItems (db w)) ->
  exists w', create_tables w = Failed OperationalError w'.
Proof.
  destruct w as [f [[cs|] [ps|] [os|] [ois|]] rs]; simpl;
    try (intros _; eexists; reflexivity).
  intros [H|[H|[H|H]]]; by destruct H.
Qed.

Lemma create_tables_existing_witness :
  (is_Some (Customers (db stale_world)) \/ is_Some (Products (db stale_world))
   \/ is_Some (Orders (db stale_world)) \/ is_Some (OrderItems (db stale_world)))
  /\ exists w', create_tables stale_world = Failed OperationalError w'.
Proof.
  split; [left; simpl; eauto|].
  apply (create_tables_existing stale_world). left. simpl. eauto.
Defined.

(** X7: After the drops the creates always succeed, and the store holds four
    empty tables whatever it held before. *)
Theorem drop_then_create_resets w :
  (drop_tables;; create_tables) w = Done () (mkWorld (fs w) empty_store (rng w)).
Proof. apply reset_store. Qed.

(** X9: AUTOINCREMENT gives the line items the keys 1, 2, 3, ... in insertion
    order and stores the inserted columns unchanged. *)
Theorem insert_items_keys its :
  insert_items its []
  = imap (fun i it =>
            mkOrderItemRow (Z.of_nat i + 1) (item_order_id it) (item_product_id it)
                           (quantity it) (unit_price it)) its.
Proof. apply insert_items_fresh. Qed.

(** X10: Into freshly created tables the inserts of a run never fail, and the
    store then holds exactly the generated lists and the catalog. *)
Theorem inserts_fill_store w :
  db w = empty_store ->
  exists d rs',
    generate num_customers num_orders (rng w) = Ok (d, rs')
    /\ insert_synthetic_data w = Done () (mkWorld (fs w) (store_of d) rs').
Proof. apply insert_synthetic_data_outcome. Qed.

Lemma inserts_fill_store_witness :
  db (mkWorld (fs stale_world) empty_store sample_source) = empty_store
  /\ exists d rs',
       generate num_customers num_orders
         (rng (mkWorld (fs stale_world) empty_store sample_source)) = Ok (d, rs')
       /\ insert_synthetic_data (mkWorld (fs stale_world) empty_store sample_source)
          = Done () (mkWorld (fs (mkWorld (fs stale_world) empty_store sample_source))
                             (store_of d) rs').
Proof.
  split; [reflexivity|].
  apply (inserts_fill_store (mkWorld (fs stale_world) empty_store sample_source)).
  reflexivity.
Defined.

(** ** Failures of the run *)

(** X11: When the output directory is missing and cannot be created, the run
    dies with that error before it touches the store or draws anything. *)
Theorem run_fails_when_dir_cannot_be_created `{SqlEngine} w :
  bool_decide (OUTPUT_DIR ∈ dirs (fs w)) = false ->
  bool_decide (OUTPUT_DIR ∈ files (fs w)) = false ->
  bool_decide (OUTPUT_DIR ∈ denied (fs w)) = true ->
  sql_data_analysis w = Failed PermissionError w.
Proof.
  intros Hdir Hfile Hden. unfold sql_data_analysis.
  apply script_bind_failed. unfold setup_output_dir, mbind, script_bind, os_path_exists.
  rewrite Hdir, Hfile. simpl. unfold os_makedirs. by rewrite Hdir, Hfile, Hden.
Qed.

Definition locked_world : World :=
  mkWorld (mkFS ∅ ∅ {[OUTPUT_DIR]}) (db stale_world) sample_source.

Lemma run_fails_when_dir_cannot_be_created_witness :
  bool_decide (OUTPUT_DIR ∈ dirs (fs locked_world)) = false
  /\ bool_decide (OUTPUT_DIR ∈ files (fs locked_world)) = false
  /\ bool_decide (OUTPUT_DIR ∈ denied (fs locked_world)) = true
  /\ @sql_data_analysis stable_engine locked_world = Failed PermissionError locked_world.
Proof.
  split; [reflexivity|]. split; [reflexivity|]. split; [vm_compute; reflexivity|].
  apply (@run_fails_when_dir_cannot_be_created stable_engine locked_world);
    vm_compute; reflexivity.
Defined.

Lemma savefig_not_a_directory path w :
  os_path_dirname path ∈ files (fs w) -> savefig path w = Failed NotADirectoryError w.
Proof. intros Hin. unfold savefig. by rewrite (bool_decide_eq_true_2 _ Hin). Qed.

(** X12: When a regular file stands where the output directory should be, the
    script does not notice ([os.path.exists] is true for a file): it rebuilds
    the store, runs the queries, and dies at the first savefig with no image
    written. *)
Theorem run_fails_when_dir_is_a_file `{SqlEngine} w :
  bool_decide (OUTPUT_DIR ∈ files (fs w)) = true ->
  exists w' d rs',
    sql_data_analysis w = Failed NotADirectoryError w'
    /\ generate num_customers num_orders (rng w) = Ok (d, rs')
    /\ db w' = store_of d
    /\ fs w' = fs w.
Proof.
  intros Hfile. apply bool_decide_eq_true in Hfile.
  set (w2 := mkWorld (fs w) empty_store (rng w)).
  destruct (insert_synthetic_data_outcome w2 eq_refl) as (d & rs' & Hgen & Hins).
  destruct (gen_wp_elim _ _ _ (generate_wp num_customers num_orders (rng w) ltac:(done)))
    as (d' & rs'' & Hgen' & _ & _ & [g Hg] & Hlen & _).
  simpl in Hgen. rewrite Hgen in Hgen'. injection Hgen' as <- <-.
  set (w3 := mkWorld (fs w2) (store_of d) rs') in *.
  destruct (run_queries_ok w3 d g num_customers eq_refl Hg) as [report Hq].
  { rewrite Hlen. done. }
  exists w3, d, rs'. split; [|done].
  unfold sql_data_analysis.
  assert (setup_output_dir w = Done () w) as Hsetup.
  { unfold setup_output_dir, mbind, script_bind, os_path_exists.
    rewrite (bool_decide_eq_true_2 _ Hfile), orb_true_r. done. }
  rewrite (script_bind_done _ _ _ _ _ Hsetup). cbv beta.
  change (drop_tables ≫= _) with
    ((drop_tables;; create_tables) ≫= (fun _ : unit =>
       insert_synthetic_data;; report ← run_queries; export_images;; mret report)).
  rewrite (script_bind_done _ _ _ _ _ (reset_store w)). cbv beta. fold w2.
  rewrite (script_bind_done _ _ _ _ _ Hins). cbv beta. fold w3.
  rewrite (script_bind_done _ _ _ _ _ Hq). cbv beta.
  apply script_bind_failed. unfold export_images. apply script_bind_failed.
  apply savefig_not_a_directory. rewrite image_paths_dirname; [done|]. repeat constructor.
Qed.

Definition blocked_world : World :=
  mkWorld (mkFS ∅ {[OUTPUT_DIR]} ∅) (db stale_world) sample_source.

Lemma run_fails_when_dir_is_a_file_witness :
  bool_decide (OUTPUT_DIR ∈ files (fs blocked_world)) = true
  /\ exists w' d rs',
       @sql_data_analysis stable_engine blocked_world = Failed NotADirectoryError w'
       /\ generate num_customers num_orders (rng blocked_world) = Ok (d, rs')
       /\ db w' = store_of d
       /\ fs w' = fs blocked_world.
Proof.
  split; [vm_compute; reflexivity|].
  apply (@run_fails_when_dir_is_a_file stable_engine blocked_world).
  vm_compute. reflexivity.
Defined.

Lemma output_dir_usable_iff f :
  output_dir_usable f = true
  <-> OUTPUT_DIR ∉ files f
      /\ (OUTPUT_DIR ∈ dirs f \/ OUTPUT_DIR ∉ denied f)
      /\ forall p, p ∈ image_paths -> p ∉ dirs f /\ p ∉ denied f.
Proof.
  unfold output_dir_usable. split.
  - intros Hfs. apply andb_prop in Hfs as [Hfs Hpaths].
    apply andb_prop in Hfs as [Hfile Hdir].
    apply negb_true_iff, bool_decide_eq_false in Hfile.
    rewrite forallb_forall in Hpaths. split; [done|]. split.
    + apply orb_prop in Hdir as [Hd|Hd]; [left; by apply bool_decide_eq_true in Hd|].
      right. by apply negb_true_iff, bool_decide_eq_false in Hd.
    + intros p Hp. apply list_elem_of_In, Hpaths, andb_prop in Hp as [H1 H2].
      apply negb_true_iff, bool_decide_eq_false in H1, H2. done.
  - intros (Hfile & Hor & Hfree).
    apply andb_true_intro. split; [apply andb_true_intro; split|].
    + by apply negb_true_iff, bool_decide_eq_false.
    + destruct Hor as [Hd|Hd].
      * apply orb_true_intro. left. by apply bool_decide_eq_true.
      * apply orb_true_intro. right. by apply negb_true_iff, bool_decide_eq_false.
    + apply forallb_forall. intros p Hp. apply list_elem_of_In, Hfree in Hp as [H1 H2].
      apply andb_true_intro. split; by apply negb_true_iff, bool_decide_eq_false.
Qed.

(** The world a complete run leaves behind. *)
Lemma full_run_world `{SqlEngine} w :
  output_dir_usable (fs w) = true ->
  exists report d rs',
    generate num_customers num_orders (rng w) = Ok (d, rs')
    /\ sql_data_analysis w
       = Done report
           (mkWorld (mkFS ({[OUTPUT_DIR]} ∪ dirs (fs w))
                          (list_to_set image_paths ∪ files (fs w))
                          (denied (fs w)))
                    (store_of d) rs').
Proof.
  intros Hfs. apply output_dir_usable_iff in Hfs as (Hfile & Hor & Hfree).
  destruct image_paths_distinct as (Hnd & Hout & Hfour).
  set (w1 := mkWorld (mkFS ({[OUTPUT_DIR]} ∪ dirs (fs w)) (files (fs w)) (denied (fs w)))
                     (db w) (rng w)).
  set (w2 := mkWorld (fs w1) empty_store (rng w1)).
  destruct (insert_synthetic_data_outcome w2 eq_refl) as (d & rs' & Hgen & Hins).
  destruct (gen_wp_elim _ _ _ (generate_wp num_customers num_orders (rng w) ltac:(done)))
    as (d' & rs'' & Hgen' & _ & _ & [g Hg] & Hlen & _).
  simpl in Hgen. rewrite Hgen in Hgen'. injection Hgen' as <- <-.
  set (w3 := mkWorld (fs w2) (store_of d) rs') in *.
  destruct (run_queries_ok w3 d g num_customers eq_refl Hg) as [report Hq].
  { rewrite Hlen. done. }
  exists report, d, rs'. split; [done|].
  unfold sql_data_analysis.
  rewrite (script_bind_done _ _ _ _ _ (setup_output_dir_ok w Hfile Hor)). cbv beta.
  fold w1. change (drop_tables ≫= _) with
    ((drop_tables;; create_tables) ≫= (fun _ : unit =>
       insert_synthetic_data;; report ← run_queries; export_images;; mret report)).
  rewrite (script_bind_done _ _ _ _ _ (reset_store w1)). cbv beta. fold w2.
  rewrite (script_bind_done _ _ _ _ _ Hins). cbv beta. fold w3.
  rewrite (script_bind_done _ _ _ _ _ Hq). cbv beta.
  erewrite script_bind_done; [|apply export_images_ok].
  - reflexivity.
  - done.
  - apply elem_of_union. left. by apply elem_of_singleton.
  - intros p Hp. destruct (Hfree p Hp) as [Hpd Hpn]. split; [|done].
    intros [Heq|Hin]%elem_of_union; [|done].
    apply elem_of_singleton in Heq. by subst.
Qed.

(** X13: A complete run leaves the output directory usable: a second run
    completes as well, overwrites the four images and rebuilds the store
    from the draws that follow. *)
Theorem second_run_completes `{SqlEngine} w :
  output_dir_usable (fs w) = true ->
  exists r1 w1 r2 w2 d2 rs2,
    sql_data_analysis w = Done r1 w1
    /\ sql_data_analysis w1 = Done r2 w2
    /\ fs w2 = fs w1
    /\ generate num_customers num_orders (rng w1) = Ok (d2, rs2)
    /\ db w2 = store_of d2.
Proof.
  intros Hfs. destruct (full_run_world w Hfs) as (r1 & d1 & rs1 & _ & Hrun1).
  pose proof Hfs as Hfs0. apply output_dir_usable_iff in Hfs0 as (Hfile & Hor & Hfree).
  destruct image_paths_distinct as (_ & Hout & _).
  set (f1 := mkFS ({[OUTPUT_DIR]} ∪ dirs (fs w)) (list_to_set image_paths ∪ files (fs w))
                  (denied (fs w))) in *.
  set (w1 := mkWorld f1 (store_of d1) rs1) in *.
  assert (output_dir_usable (fs w1) = true) as Hfs1.
  { apply output_dir_usable_iff. split; [|split].
    - intros [Hin|Hin]%elem_of_union; [|done]. by apply elem_of_list_to_set in Hin.
    - left. apply elem_of_union. left. by apply elem_of_singleton.
    - intros p Hp. destruct (Hfree p Hp) as [Hpd Hpn]. split; [|done].
      intros [Heq|Hin]%elem_of_union; [|done].
      apply elem_of_singleton in Heq. by subst. }
  destruct (full_run_world w1 Hfs1) as (r2 & d2 & rs2 & Hgen2 & Hrun2).
  exists r1, w1, r2. eexists. exists d2, rs2.
  split; [done|]. split; [exact Hrun2|]. split; [|done].
  unfold w1, f1. cbn [fs dirs files denied]. f_equal.
  - apply set_eq. intros x. rewrite !elem_of_union. tauto.
  - apply set_eq. intros x. rewrite !elem_of_union. tauto.
Qed.

Lemma second_run_completes_witness :
  output_dir_usable (fs stale_world) = true
  /\ exists r1 w1 r2 w2 d2 rs2,
       @sql_data_analysis stable_engine stale_world = Done r1 w1
       /\ @sql_data_analysis stable_engine w1 = Done r2 w2
       /\ fs w2 = fs w1
       /\ generate num_customers num_orders (rng w1) = Ok (d2, rs2)
       /\ db w2 = store_of d2.
Proof.
  split; [vm_compute; reflexivity|].
  apply (@second_run_completes stable_engine stale_world).
  vm_compute. reflexivity.
Defined.

(** ** The sample charts *)

Definition chart_paths : list string :=
  [ "images/monthly_sales_trend.png"; "images/customer_segmentation.png";
    "images/best_selling_products.png"; "images/top_customers_spending.png" ].

(** The directory [images] exists and nothing stands in the way of the
    four chart files. *)
Definition images_dir_usable (f : FileSystem) : bool :=
  bool_decide ("images" ∈ dirs f) && negb (bool_decide ("images" ∈ files f))
  && forallb (fun p => negb (bool_decide (p ∈ dirs f))
                       && negb (bool_decide (p ∈ denied f))) chart_paths.

(** Four renders in a row into one existing directory. *)
Lemma savefig_four_ok d p1 p2 p3 p4 w :
  (forall p, p ∈ [p1; p2; p3; p4] -> os_path_dirname p = d) ->
  d ∉ [p1; p2; p3; p4] ->
  d ∉ files (fs w) -> d ∈ dirs (fs w) ->
  (forall p, p ∈ [p1; p2; p3; p4] -> p ∉ dirs (fs w) /\ p ∉ denied (fs w)) ->
  (savefig p1;; savefig p2;; savefig p3;; savefig p4) w
  = Done () (mkWorld (mkFS (dirs (fs w)) (list_to_set [p1; p2; p3; p4] ∪ files (fs w))
                           (denied (fs w)))
                     (db w) (rng w)).
Proof.
  intros Hdn Hout Hfile Hdir Hfree.
  assert (forall p (X : gset string),
            p ∈ [p1; p2; p3; p4] -> (forall x, x ∈ X -> x ∈ [p1; p2; p3; p4]) ->
            os_path_dirname p ∉ X ∪ files (fs w)) as Hnot.
  { intros p X Hp HX. rewrite (Hdn p Hp).
    intros [Hin|Hin]%elem_of_union; [|done]. by apply HX in Hin. }
  assert (forall p, p ∈ [p1; p2; p3; p4] -> os_path_dirname p ∈ dirs (fs w)) as Hd.
  { intros p Hp. by rewrite Hdn. }
  erewrite script_bind_done; cycle 1.
  { apply savefig_ok.
    - rewrite Hdn; [done|]. repeat constructor.
    - apply Hd. repeat constructor.
    - apply Hfree. repeat constructor.
    - apply Hfree. repeat constructor. }
  cbv beta. erewrite script_bind_done; cycle 1.
  { apply savefig_ok; simpl.
    - apply Hnot; [repeat constructor|]. intros x Hx.
      apply elem_of_singleton in Hx as ->. repeat constructor.
    - apply Hd. repeat constructor.
    - apply Hfree. repeat constructor.
    - apply Hfree. repeat constructor. }
  cbv beta. erewrite script_bind_done; cycle 1.
  { apply savefig_ok; simpl.
    - rewrite (assoc_L (∪)). apply Hnot; [repeat constructor|]. intros x Hx.
      apply elem_of_union in Hx as [Hx|Hx]; apply elem_of_singleton in Hx as ->;
        repeat constructor.
    - apply Hd. repeat constructor.
    - apply Hfree. repeat constructor.
    - apply Hfree. repeat constructor. }
  cbv beta. erewrite savefig_ok; simpl.
  - do 3 f_equal. apply set_eq. intros x.
    rewrite !elem_of_union, !elem_of_singleton, elem_of_empty. tauto.
  - rewrite !(assoc_L (∪)). apply Hnot; [repeat constructor|]. intros x Hx.
    apply elem_of_union in Hx as [Hx|Hx]; [apply elem_of_union in Hx as [Hx|Hx]|];
      apply elem_of_singleton in Hx as ->; repeat constructor.
  - apply Hd. repeat constructor.
  - apply Hfree. repeat constructor.
  - apply Hfree. repeat constructor.
Qed.

Lemma chart_paths_dirname p : p ∈ chart_paths -> os_path_dirname p = "images".
Proof.
  intros Hp. unfold chart_paths in Hp.
  repeat (apply elem_of_cons in Hp as [->|Hp]; [vm_compute; reflexivity|]).
  by apply elem_of_nil in Hp.
Qed.

Lemma chart_paths_not_images : "images" ∉ chart_paths.
Proof. apply (bool_decide_unpack ("images" ∉ chart_paths)). vm_compute. exact I. Qed.

(** X14: With [images/] in place and none of the four chart paths refused,
    the script completes, the four charts are written and nothing else in
    the file system changes. *)
Theorem generate_visualizations_writes_four w :
  images_dir_usable (fs w) = true ->
  exists w',
    generate_visualizations w = Done () w'
    /\ fs w' = mkFS (dirs (fs w)) (list_to_set chart_paths ∪ files (fs w))
                    (denied (fs w)).
Proof.
  intros Hfs. unfold images_dir_usable in Hfs.
  apply andb_prop in Hfs as [Hfs Hpaths]. apply andb_prop in Hfs as [Hdir Hfile].
  apply bool_decide_eq_true in Hdir.
  apply negb_true_iff, bool_decide_eq_false in Hfile.
  rewrite forallb_forall in Hpaths.
  eexists. split.
  - unfold generate_visualizations, create_monthly_sales_trend,
      create_customer_segmentation, create_best_selling_products,
      create_top_customer_spending.
    apply (savefig_four_ok "images"); [apply chart_paths_dirname
      |apply chart_paths_not_images|done|done|].
    intros p Hp. apply list_elem_of_In, Hpaths, andb_prop in Hp as [H1 H2].
    apply negb_true_iff, bool_decide_eq_false in H1, H2. done.
  - done.
Qed.

Definition charts_world : World :=
  mkWorld (mkFS {["images"]} {["images/monthly_sales_trend.png"]} ∅)
          (db stale_world) sample_source.

Lemma generate_visualizations_writes_four_witness :
  images_dir_usable (fs charts_world) = true
  /\ exists w',
       generate_visualizations charts_world = Done () w'
       /\ fs w' = mkFS (dirs (fs charts_world))
                       (list_to_set chart_paths ∪ files (fs charts_world))
                       (denied (fs charts_world)).
Proof.
  split; [vm_compute; reflexivity|].
  apply (generate_visualizations_writes_four charts_world).
  vm_compute. reflexivity.
Defined.

(** X15: A render that fails stops the script: with the second chart refused,
    the first chart stays written and the last two are never attempted. *)
Theorem generate_visualizations_stops_at_failure w :
  images_dir_usable
    (mkFS (dirs (fs w)) (files (fs w))
          (denied (fs w) ∖ {["images/customer_segmentation.png"]})) = true ->
  bool_decide ("images/customer_segmentation.png" ∈ denied (fs w)) = true ->
  exists w',
    generate_visualizations w = Failed PermissionError w'
    /\ fs w' = mkFS (dirs (fs w))
                    ({["images/monthly_sales_trend.png"]} ∪ files (fs w))
                    (denied (fs w)).
Proof.
  intros Hfs Hden. unfold images_dir_usable in Hfs. cbn [dirs files denied] in Hfs.
  apply andb_prop in Hfs as [Hfs Hpaths]. apply andb_prop in Hfs as [Hdir Hfile].
  apply bool_decide_eq_true in Hdir, Hden.
  apply negb_true_iff, bool_decide_eq_false in Hfile.
  rewrite forallb_forall in Hpaths.
  assert (forall p, p ∈ chart_paths -> p ∉ dirs (fs w)) as Hnd.
  { intros p Hp. apply list_elem_of_In, Hpaths, andb_prop in Hp as [H1 _].
    by apply negb_true_iff, bool_decide_eq_false in H1. }
  assert ("images/monthly_sales_trend.png" ∉ denied (fs w)) as Hfirst.
  { assert ("images/monthly_sales_trend.png" ∈ chart_paths) as Hp by repeat constructor.
    apply list_elem_of_In, Hpaths, andb_prop in Hp as [_ H2].
    apply negb_true_iff, bool_decide_eq_false in H2.
    intros Hin. apply H2. apply elem_of_difference. split; [done|].
    intros Heq%elem_of_singleton. discriminate Heq. }
  exists (mkWorld (mkFS (dirs (fs w))
                        ({["images/monthly_sales_trend.png"]} ∪ files (fs w))
                        (denied (fs w))) (db w) (rng w)).
  split; [|reflexivity].
  unfold generate_visualizations, create_monthly_sales_trend,
    create_customer_segmentation.
  erewrite script_bind_done; cycle 1.
  { apply savefig_ok.
    - by rewrite chart_paths_dirname by repeat constructor.
    - by rewrite chart_paths_dirname by repeat constructor.
    - apply Hnd. repeat constructor.
    - done. }
  cbv beta. apply script_bind_failed. unfold savefig.
  rewrite chart_paths_dirname by repeat constructor. cbn [fs dirs files denied].
  rewrite bool_decide_eq_false_2.
  - rewrite (bool_decide_eq_true_2 _ Hdir), orb_true_r. cbn [negb].
    assert ("images/customer_segmentation.png" ∉ dirs (fs w)) as Hsecond
      by (apply Hnd; repeat constructor).
    rewrite (bool_decide_eq_false_2 _ Hsecond).
    by rewrite (bool_decide_eq_true_2 _ Hden).
  - intros [Heq%elem_of_singleton|Hin]%elem_of_union; [discriminate Heq|done].
Qed.

Definition refusing_world : World :=
  mkWorld (mkFS {["images"]} ∅ {["images/customer_segmentation.png"]})
          (db stale_world) sample_source.

Lemma generate_visualizations_stops_at_failure_witness :
  images_dir_usable
    (mkFS (dirs (fs refusing_world)) (files (fs refusing_world))
          (denied (fs refusing_world) ∖ {["images/customer_segmentation.png"]})) = true
  /\ bool_decide ("images/customer_segmentation.png" ∈ denied (fs refusing_world)) = true
  /\ exists w',
       generate_visualizations refusing_world = Failed PermissionError w'
       /\ fs w' = mkFS (dirs (fs refusing_world))
                       ({["images/monthly_sales_trend.png"]} ∪ files (fs refusing_world))
                       (denied (fs refusing_world)).
Proof.
  split; [vm_compute; reflexivity|]. split; [vm_compute; reflexivity|].
  apply (generate_visualizations_stops_at_failure refusing_world);
    vm_compute; reflexivity.
Defined.

(** ** Aggregates per customer *)

Lemma count_above_cons {A} (key : A -> Z) v x (l : list A) :
  count_above key v (x :: l)
  = (if decide (v < key x) then 1 else 0) + count_above key v l.
Proof.
  unfold count_above. destruct (decide (v < key x)).
  - rewrite filter_cons_True by done. rewrite length_cons. lia.
  - by rewrite filter_cons_False by done.
Qed.

Lemma count_above_mono {A} (key : A -> Z) v1 v2 (l : list A) :
  v1 <= v2 -> count_above key v2 l <= count_above key v1 l.
Proof.
  intros Hle. induction l as [|x l IH]; [done|]. rewrite !count_above_cons.
  destruct (decide (v2 < key x)), (decide (v1 < key x)); lia.
Qed.

Lemma count_above_strict {A} (key : A -> Z) v1 (l : list A) x :
  x ∈ l -> v1 < key x -> count_above key (key x) l < count_above key v1 l.
Proof.
  intros Hin Hlt. induction l as [|y l IH]; [by apply elem_of_nil in Hin|].
  rewrite !count_above_cons. apply elem_of_cons in Hin as [<-|Hin].
  - pose proof (count_above_mono key v1 (key x) l ltac:(lia)).
    destruct (decide (key x < key x)), (decide (v1 < key x)); lia.
  - specialize (IH Hin).
    destruct (decide (key x < key y)), (decide (v1 < key y)); lia.
Qed.

(** X16: Under the primary key of Customers, each of the top rows carries the
    engine's SUM over exactly that customer's orders, no customer appears
    twice, and LIMIT 10 keeps rows that spent at least as much as every
    row it drops; it returns fewer than 10 rows only when it drops none. *)
Theorem top_customers_totals `{SqlEngine} cs ps os ois :
  NoDup (customer_id <$> cs) ->
  exists rows rest,
    query_top_customers (mkStore (Some cs) ps (Some os) ois) = Ok rows
    /\ NoDup (sp_customer_id <$> rows)
    /\ (forall r, r ∈ rows ->
          total_spent r
          = sum_real (total_amount <$>
                        filter (fun o => order_customer_id o = sp_customer_id r) os))
    /\ CustomerSpending cs os ≡ₚ rows ++ rest
    /\ (forall r r', r ∈ rows -> r' ∈ rest ->
          B64.real_key (total_spent r') <= B64.real_key (total_spent r))
    /\ (rest <> [] -> length rows = 10%nat).
Proof.
  intros Hnd.
  set (sorted := order_by (desc (fun r => B64.real_key (total_spent r)))
                          (CustomerSpending cs os)).
  exists (take 10 sorted), (drop 10 sorted).
  assert (sp_customer_id <$> CustomerSpending cs os
          = (fun r : Z * string * float => r.1.1) <$> per_customer sum_real cs os)
    as Hids.
  { unfold CustomerSpending. rewrite <- list_fmap_compose.
    apply list_fmap_ext. by intros i [[id name] v] _. }
  split; [reflexivity|]. split; [|split; [|split; [|split]]].
  - rewrite fmap_take. apply NoDup_take_prefix. unfold sorted.
    rewrite order_by_perm, Hids. by apply per_customer_ids.
  - intros r Hr. apply elem_of_take in Hr as (i & Hr & _).
    apply list_elem_of_lookup_2, elem_of_order_by in Hr.
    unfold CustomerSpending in Hr.
    apply list_elem_of_fmap in Hr as ([[id name] v] & -> & Hin). simpl.
    by apply (per_customer_spec sum_real cs os id name v).
  - rewrite take_drop. unfold sorted. by rewrite order_by_perm.
  - intros r r' Hr Hr'.
    pose proof (order_by_desc_sorted (fun r => B64.real_key (total_spent r))
                  (CustomerSpending cs os)) as Hs.
    fold sorted in Hs. rewrite <- (take_drop 10 sorted) in Hs.
    by apply (StronglySorted_app_1_elem_of _ _ _ _ _ Hs).
  - apply take_full_when_cut.
Qed.

Definition three_orders : list Order :=
  [mkOrder 1 2 "2021-03-01" (B64.decimal2 1999);
   mkOrder 2 1 "2021-03-02" (B64.decimal2 4999);
   mkOrder 3 2 "2021-04-01" (B64.decimal2 9999)].

Lemma top_customers_totals_witness :
  NoDup (customer_id <$> two_customers)
  /\ exists rows rest,
      @query_top_customers stable_engine
        (mkStore (Some two_customers) None (Some three_orders) None) = Ok rows
      /\ NoDup (sp_customer_id <$> rows)
      /\ (forall r, r ∈ rows ->
            total_spent r
            = @sum_real stable_engine
                (total_amount <$>
                   filter (fun o => order_customer_id o = sp_customer_id r) three_orders))
      /\ @CustomerSpending stable_engine two_customers three_orders ≡ₚ rows ++ rest
      /\ (forall r r', r ∈ rows -> r' ∈ rest ->
            B64.real_key (total_spent r') <= B64.real_key (total_spent r))
      /\ (rest <> [] -> length rows = 10%nat).
Proof.
  assert (NoDup (customer_id <$> two_customers)) as Hnd.
  { apply (bool_decide_unpack _). vm_compute. exact I. }
  split; [exact Hnd|].
  exact (@top_customers_totals stable_engine two_customers None three_orders None Hnd).
Defined.

(** X17: Under the primary key of Customers, each row of the segmentation
    carries the engine's AVG over exactly that customer's orders, no
    customer appears twice, and the ranks follow the means: a strictly
    greater mean has a strictly smaller rank, equal means share a rank, and
    a rank is at least 1 and at most the number of customers with orders. *)
Theorem customer_segmentation_means `{SqlEngine} cs ps os ois :
  NoDup (customer_id <$> cs) ->
  exists rows,
    query_customer_segmentation (mkStore (Some cs) ps (Some os) ois) = Ok rows
    /\ NoDup (sg_customer_id <$> rows)
    /\ (forall r, r ∈ rows ->
          avg_order_value r
          = avg_real (total_amount <$>
                        filter (fun o => order_customer_id o = sg_customer_id r) os)
          /\ 1 <= spending_rank r <= Z.of_nat (length (CustomerOrders cs os)))
    /\ (forall r r', r ∈ rows -> r' ∈ rows ->
          (B64.real_key (avg_order_value r') < B64.real_key (avg_order_value r) ->
           spending_rank r < spending_rank r')
          /\ (B64.real_key (avg_order_value r') = B64.real_key (avg_order_value r) ->
              spending_rank r = spending_rank r')).
Proof.
  intros Hnd. eexists. split; [reflexivity|].
  set (key := fun x : Z * string * float => B64.real_key x.2).
  assert (forall r, r ∈ take 10 (order_by (asc spending_rank) (ranked_customers cs os)) ->
            (sg_customer_id r, sg_name r, avg_order_value r) ∈ CustomerOrders cs os
            /\ spending_rank r
               = 1 + count_above key (B64.real_key (avg_order_value r))
                       (CustomerOrders cs os)) as Hrow.
  { intros r Hr. apply elem_of_take in Hr as (i & Hr & _).
    apply list_elem_of_lookup_2, elem_of_order_by in Hr.
    by apply elem_of_ranked_customers. }
  split; [|split].
  - rewrite fmap_take. apply NoDup_take_prefix. rewrite order_by_perm.
    unfold ranked_customers.
    assert (forall l : list (Z * string * float * Z),
              sg_customer_id <$> ((fun '((id, name, avg), rk) => mkSegmentRow id name avg rk)
                                    <$> l)
              = (fun r : Z * string * float => r.1.1) <$> l.*1) as Hids.
    { intros l. rewrite <- !list_fmap_compose. apply list_fmap_ext.
      by intros i [[[id name] v] rk] _. }
    rewrite Hids, assign_ranks_fst, order_by_perm. by apply per_customer_ids.
  - intros r Hr. destruct (Hrow r Hr) as [Hin Hrk]. split.
    + by apply (per_customer_spec avg_real cs os _ (sg_name r)).
    + rewrite Hrk. unfold count_above.
      pose proof (length_filter (fun x => B64.real_key (avg_order_value r) < key x)
                    (CustomerOrders cs os)) as Hle.
      assert (count_above key (key (sg_customer_id r, sg_name r, avg_order_value r))
                (CustomerOrders cs os)
              < count_above key (key (sg_customer_id r, sg_name r, avg_order_value r) - 1)
                  (CustomerOrders cs os)) as Hlt
        by (apply count_above_strict; [done|lia]).
      unfold count_above in Hlt.
      pose proof (length_filter
                    (fun x => key (sg_customer_id r, sg_name r, avg_order_value r) - 1
                              < key x)
                    (CustomerOrders cs os)) as Hle'.
      change (key (sg_customer_id r, sg_name r, avg_order_value r))
        with (B64.real_key (avg_order_value r)) in Hlt, Hle'.
      lia.
  - intros r r' Hr Hr'. destruct (Hrow r Hr) as [Hin ->].
    destruct (Hrow r' Hr') as [Hin' ->]. split.
    + intros Hlt.
      pose proof (count_above_strict key (B64.real_key (avg_order_value r'))
                    (CustomerOrders cs os) _ Hin Hlt) as Hc.
      change (key (sg_customer_id r, sg_name r, avg_order_value r))
        with (B64.real_key (avg_order_value r)) in Hc. lia.
    + by intros ->.
Qed.

Lemma customer_segmentation_means_witness :
  NoDup (customer_id <$> two_customers)
  /\ exists rows,
      @query_customer_segmentation stable_engine
        (mkStore (Some two_customers) None (Some three_orders) None) = Ok rows
      /\ NoDup (sg_customer_id <$> rows)
      /\ (forall r, r ∈ rows ->
            avg_order_value r
            = @avg_real stable_engine
                (total_amount <$>
                   filter (fun o => order_customer_id o = sg_customer_id r) three_orders)
            /\ 1 <= spending_rank r
               <= Z.of_nat (length (@CustomerOrders stable_engine two_customers three_orders)))
      /\ (forall r r', r ∈ rows -> r' ∈ rows ->
            (B64.real_key (avg_order_value r') < B64.real_key (avg_order_value r) ->
             spending_rank r < spending_rank r')
            /\ (B64.real_key (avg_order_value r') = B64.real_key (avg_order_value r) ->
                spending_rank r = spending_rank r')).
Proof.
  assert (NoDup (customer_id <$> two_customers)) as Hnd.
  { apply (bool_decide_unpack _). vm_compute. exact I. }
  split; [exact Hnd|].
  exact (@customer_segmentation_means stable_engine two_customers None three_orders None Hnd).
Defined.
